(** * voltdb/fastserializer.go: the VoltDB wire codec

    A shallow embedding of the package-private (de)serialisation functions
    of [fastserializer.go] and the properties of the wire format they
    implement.

    Conventions of the embedding:
    - Go's fixed-width integers are [Z] with the conversions' wrap-around
      written out ([uint8] ... [int64] below);
    - a [byte] is Rocq's [Init.Byte.byte], read and built through coqutil's
      [byte.unsigned] and [byte.of_Z];
    - a Go [string] is its sequence of bytes (the UTF-8 encoding of the
      text), so [len(d)] is the length of the list and [string(bs)] and
      [[]byte(d)] are the identity;
    - [io.Reader] and [io.Writer] are interfaces, hence type classes; a
      method call threads the receiver's state explicitly;
    - a Go function returning [(T, error)] returns a pair of a [T] and an
      [option error];
    - a run-time panic ([make] with a negative length) is a separate
      outcome, not an error value. *)

From Stdlib Require Import String.
From Stdlib Require Import ZArith List Bool Lia.
From Stdlib Require Import Floats.SpecFloat.
From coqutil Require Import Byte.
Import ListNotations.

Local Open Scope Z_scope.

(** ** Go's integer types and conversions *)

Module GoInt.

(** Conversion to an unsigned type of width [w] keeps the low [w] bits. *)
Definition unsigned_wrap (w : Z) (z : Z) : Z := z mod 2 ^ w.

(** Conversion to a signed type of width [w] keeps the low [w] bits and
    reads them in two's complement. *)
Definition signed_wrap (w : Z) (z : Z) : Z :=
  let u := z mod 2 ^ w in
  if u <? 2 ^ (w - 1) then u else u - 2 ^ w.

Definition uint8 := unsigned_wrap 8.
Definition uint16 := unsigned_wrap 16.
Definition uint32 := unsigned_wrap 32.
Definition uint64 := unsigned_wrap 64.
Definition int8 := signed_wrap 8.
Definition int16 := signed_wrap 16.
Definition int32 := signed_wrap 32.
Definition int64 := signed_wrap 64.

(** The values of a signed type of width [w]. *)
Definition in_signed (w : Z) (z : Z) : Prop :=
  - 2 ^ (w - 1) <= z < 2 ^ (w - 1).

Definition in_unsigned (w : Z) (z : Z) : Prop := 0 <= z < 2 ^ w.

End GoInt.
Import GoInt.

(** [len] of a string or slice, an [int]. *)
Definition len {A : Type} (l : list A) : Z := Z.of_nat (length l).

(** Indexing a slice that is known to be long enough. *)
Definition idx (b : list byte) (i : nat) : byte := nth i b Byte.x00.

(** ** encoding/binary: the [BigEndian] byte order *)

Module BigEndian.

(** [PutUint16(b, v)]: the contents of [b[0:2]] afterwards. *)
Definition PutUint16 (v : Z) : list byte :=
  [byte.of_Z (Z.shiftr v 8); byte.of_Z v].

Definition Uint16 (b : list byte) : Z :=
  Z.lor (byte.unsigned (idx b 1)) (Z.shiftl (byte.unsigned (idx b 0)) 8).

Definition PutUint32 (v : Z) : list byte :=
  [byte.of_Z (Z.shiftr v 24); byte.of_Z (Z.shiftr v 16);
   byte.of_Z (Z.shiftr v 8); byte.of_Z v].

Definition Uint32 (b : list byte) : Z :=
  Z.lor (Z.lor (Z.lor (byte.unsigned (idx b 3))
                      (Z.shiftl (byte.unsigned (idx b 2)) 8))
               (Z.shiftl (byte.unsigned (idx b 1)) 16))
        (Z.shiftl (byte.unsigned (idx b 0)) 24).

Definition PutUint64 (v : Z) : list byte :=
  [byte.of_Z (Z.shiftr v 56); byte.of_Z (Z.shiftr v 48);
   byte.of_Z (Z.shiftr v 40); byte.of_Z (Z.shiftr v 32);
   byte.of_Z (Z.shiftr v 24); byte.of_Z (Z.shiftr v 16);
   byte.of_Z (Z.shiftr v 8); byte.of_Z v].

Definition Uint64 (b : list byte) : Z :=
  Z.lor (Z.lor (Z.lor (Z.lor (Z.lor (Z.lor (Z.lor
    (byte.unsigned (idx b 7))
    (Z.shiftl (byte.unsigned (idx b 6)) 8))
    (Z.shiftl (byte.unsigned (idx b 5)) 16))
    (Z.shiftl (byte.unsigned (idx b 4)) 24))
    (Z.shiftl (byte.unsigned (idx b 3)) 32))
    (Z.shiftl (byte.unsigned (idx b 2)) 40))
    (Z.shiftl (byte.unsigned (idx b 1)) 48))
    (Z.shiftl (byte.unsigned (idx b 0)) 56).

End BigEndian.

(** [var order = binary.BigEndian] *)
Module order := BigEndian.

(** ** io: errors, readers and writers *)

(** The error values that the sources and sinks of this development return.
    The codec creates no error of its own: every error it returns comes
    from a [Read] or a [Write]. *)
Inductive error : Type :=
| EOF              (* io.EOF *)
| ErrShortWrite    (* io.ErrShortWrite *)
| EMSGSIZE.        (* syscall.EMSGSIZE, message too long *)

(** [Read(p []byte) (n int, err error)]: from the receiver and the contents
    of [p], the contents of [p] afterwards, [n], [err] and the receiver
    afterwards. *)
Class Reader (R : Type) : Type :=
  Read : R -> list byte -> list byte * Z * option error * R.

(** [Write(p []byte) (n int, err error)]. *)
Class Writer (W : Type) : Type :=
  Write : W -> list byte -> Z * option error * W.

(** [io.WriteString(w, s)] calls [w.WriteString(s)] when [w] has that
    method and [w.Write([]byte(s))] otherwise; a [WriteString] method
    writes the bytes of [s] as [Write] does. *)
Definition io_WriteString {W : Type} `{Writer W} (w : W) (s : list byte)
  : Z * option error * W := Write w s.

(** A run-time panic. *)
Inductive panic : Type :=
| makeslice_len_out_of_range.

(** How a call that may panic ends. *)
Inductive outcome (A : Type) : Type :=
| Returns (a : A)
| Panics (p : panic).
Arguments Returns {A} a.
Arguments Panics {A} p.

(** [make([]T, n)] with the zero value [z] of [T]. *)
Definition make {A : Type} (z : A) (n : Z) : outcome (list A) :=
  if n <? 0 then Panics makeslice_len_out_of_range
  else Returns (repeat z (Z.to_nat n)).

(** ** The wire types *)

Definition vt_ARRAY : Z := -99.
Definition vt_NULL : Z := 1.
Definition vt_BOOL : Z := 3.
Definition vt_SHORT : Z := 4.
Definition vt_INT : Z := 5.
Definition vt_LONG : Z := 6.
Definition vt_FLOAT : Z := 8.
Definition vt_STRING : Z := 9.
Definition vt_TIMESTAMP : Z := 11.
Definition vt_TABLE : Z := 21.
Definition vt_DECIMAL : Z := 22.
Definition vt_VARBIN : Z := 25.

(** [protoVersion] is the implemented VoltDB wire protocol version. *)
Definition protoVersion : Z := 1.

(** ** float64 *)

Module Float64.

Definition prec : Z := 53.
Definition emax : Z := 1024.

(** A [float64] is a binary64 number. *)
Definition float64 : Type := spec_float.

Definition valid (d : float64) : bool := valid_binary prec emax d.

(** The integer part of [m * 2^e], the fraction discarded. *)
Definition trunc (m : positive) (e : Z) : Z :=
  if 0 <=? e then Z.shiftl (Z.pos m) e else Z.shiftr (Z.pos m) (- e).

Section Conversions.

(** The language leaves the result of converting a floating-point value
    that the integer type cannot represent to the implementation;
    [out_of_range] is that choice. *)
Variable out_of_range : float64 -> Z.

(** The conversion [uint64(d)] of a [float64]: a numeric conversion
    that discards the fraction (truncation towards zero). *)
Definition to_uint64 (d : float64) : Z :=
  match d with
  | S754_zero _ => 0
  | S754_finite false m e =>
      let t := trunc m e in
      if t <? 2 ^ 64 then t else uint64 (out_of_range d)
  | S754_finite true m e =>
      if trunc m e =? 0 then 0 else uint64 (out_of_range d)
  | S754_infinity _ | S754_nan => uint64 (out_of_range d)
  end.

End Conversions.

(** The conversion [float64(u)] of a [uint64]: the nearest [float64],
    ties to even. *)
Definition of_uint64 (u : Z) : float64 :=
  binary_normalize prec emax u 0 false.

End Float64.
Import Float64.

(** ** The serializer *)

Section Writers.

Context {W : Type} `{Writer W}.

Definition writeProtoVersion (w : W) : option error * W :=
  let b := [byte.of_Z protoVersion] in
  let '(_, err, w) := Write w b in
  (err, w).

Definition writeByte (w : W) (d : Z) : option error * W :=
  let b := [byte.of_Z (uint8 d)] in
  let '(_, err, w) := Write w b in
  (err, w).

Definition writeBoolean (w : W) (d : bool) : option error * W :=
  if d then writeByte w 1 else writeByte w 0.

Definition writeShort (w : W) (d : Z) : option error * W :=
  let bs := order.PutUint16 (uint16 d) in
  let '(_, err, w) := Write w bs in
  (err, w).

Definition writeInt (w : W) (d : Z) : option error * W :=
  let bs := order.PutUint32 (uint32 d) in
  let '(_, err, w) := Write w bs in
  (err, w).

Definition writeLong (w : W) (d : Z) : option error * W :=
  let bs := order.PutUint64 (uint64 d) in
  let '(_, err, w) := Write w bs in
  (err, w).

Definition writeFloat (out_of_range : float64 -> Z) (w : W) (d : float64)
  : option error * W :=
  let bs := order.PutUint64 (to_uint64 out_of_range d) in
  let '(_, err, w) := Write w bs in
  (err, w).

(** The result of [writeInt] is dropped. *)
Definition writeString (w : W) (d : list byte) : option error * W :=
  let '(_, w) := writeInt w (int32 (len d)) in
  let '(_, err, w) := io_WriteString w d in
  (err, w).

Definition writeByteString (w : W) (d : list byte) : option error * W :=
  let '(_, w) := writeInt w (int32 (len d)) in
  let '(_, err, w) := Write w d in
  (err, w).

End Writers.

Section Readers.

Context {R : Type} `{Reader R}.

Definition readByte (r : R) : Z * option error * R :=
  let b := [Byte.x00] in
  let '(bs, _, err, r) := Read r b in
  match err with
  | Some e => (0, Some e, r)
  | None => (int8 (byte.unsigned (idx bs 0)), None, r)
  end.

Definition readBoolean (r : R) : bool * option error * R :=
  let '(val, err, r) := readByte r in
  match err with
  | Some e => (false, Some e, r)
  | None => (negb (val =? 0), None, r)
  end.

Definition readShort (r : R) : Z * option error * R :=
  let b := repeat Byte.x00 2 in
  let '(bs, _, err, r) := Read r b in
  match err with
  | Some e => (0, Some e, r)
  | None => (int16 (order.Uint16 bs), None, r)
  end.

Definition readInt (r : R) : Z * option error * R :=
  let b := repeat Byte.x00 4 in
  let '(bs, _, err, r) := Read r b in
  match err with
  | Some e => (0, Some e, r)
  | None => (int32 (order.Uint32 bs), None, r)
  end.

Definition readLong (r : R) : Z * option error * R :=
  let b := repeat Byte.x00 8 in
  let '(bs, _, err, r) := Read r b in
  match err with
  | Some e => (0, Some e, r)
  | None => (int64 (order.Uint64 bs), None, r)
  end.

Definition readFloat (r : R) : float64 * option error * R :=
  let b := repeat Byte.x00 8 in
  let '(bs, _, err, r) := Read r b in
  match err with
  | Some e => (S754_zero false, Some e, r)
  | None => (of_uint64 (order.Uint64 bs), None, r)
  end.

End Readers.

(** [arr[i] = v] for an index within the slice; the loops below only use
    indices produced by [range arr]. *)
Fixpoint store {A : Type} (arr : list A) (i : nat) (v : A) : list A :=
  match arr, i with
  | [], _ => []
  | _ :: t, O => v :: t
  | h :: t, S i => h :: store t i v
  end.

Section ArrayReaders.

Context {R : Type} `{Reader R}.

(** The body of [for idx := range arr] in [readByteArray], with [n]
    iterations left; an error returns [nil]. *)
Fixpoint readByteArray_loop (n : nat) (i : nat) (arr : list Z) (r : R)
  : list Z * option error * R :=
  match n with
  | O => (arr, None, r)
  | S n =>
      let '(val, err, r) := readByte r in
      match err with
      | Some e => ([], Some e, r)
      | None => readByteArray_loop n (S i) (store arr i val) r
      end
  end.

Definition readByteArray (r : R) : outcome (list Z * option error * R) :=
  let '(cnt, err, r) := readInt r in
  match err with
  | Some e => Returns ([], Some e, r)
  | None =>
      match make 0 cnt with
      | Panics p => Panics p
      | Returns arr => Returns (readByteArray_loop (length arr) 0 arr r)
      end
  end.

Definition readString (r : R) : outcome (list byte * option error * R) :=
  let result := [] in
  let '(length, err, r) := readInt r in
  match err with
  | Some e => Returns (result, Some e, r)
  | None =>
      match make Byte.x00 length with
      | Panics p => Panics p
      | Returns bs =>
          let '(bs, _, err, r) := Read r bs in
          match err with
          | Some e => Returns (result, Some e, r)
          | None => Returns (bs, None, r)
          end
      end
  end.

(** The body of [for idx := range arr] in [readStringArray]. *)
Fixpoint readStringArray_loop (n : nat) (i : nat) (arr : list (list byte))
  (r : R) : outcome (list (list byte) * option error * R) :=
  match n with
  | O => Returns (arr, None, r)
  | S n =>
      match readString r with
      | Panics p => Panics p
      | Returns (val, err, r) =>
          match err with
          | Some e => Returns ([], Some e, r)
          | None => readStringArray_loop n (S i) (store arr i val) r
          end
      end
  end.

Definition readStringArray (r : R)
  : outcome (list (list byte) * option error * R) :=
  let '(cnt, err, r) := readShort r in
  match err with
  | Some e => Returns ([], Some e, r)
  | None =>
      match make [] cnt with
      | Panics p => Panics p
      | Returns arr => readStringArray_loop (length arr) 0 arr r
      end
  end.

End ArrayReaders.

(** ** Sources and sinks *)

(** [bytes.Buffer]: the bytes written and not yet read. *)
Record Buffer : Type := NewBuffer { unread : list byte }.

(** [Buffer.Read]: an empty buffer answers [io.EOF] unless [len(p)] is
    zero; otherwise [copy] moves as many bytes as fit and are there. *)
#[export] Instance Buffer_Reader : Reader Buffer := fun b p =>
  match unread b with
  | [] => if len p =? 0 then (p, 0, None, b) else (p, 0, Some EOF, b)
  | _ :: _ =>
      let n := Nat.min (length p) (length (unread b)) in
      (firstn n (unread b) ++ skipn n p, Z.of_nat n, None,
       NewBuffer (skipn n (unread b)))
  end.

(** [Buffer.Write] appends and returns no error. *)
#[export] Instance Buffer_Writer : Writer Buffer := fun b p =>
  (len p, None, NewBuffer (unread b ++ p)).

(** [iotest.OneByteReader]: each non-empty [Read] reads one byte from the
    wrapped reader. *)
Record OneByteReader (R : Type) : Type := MkOneByteReader { obr_r : R }.
Arguments MkOneByteReader {R} obr_r.
Arguments obr_r {R} o.

#[export] Instance OneByteReader_Reader {R : Type} `{Reader R}
  : Reader (OneByteReader R) := fun o p =>
  if len p =? 0 then (p, 0, None, o)
  else
    let '(p1, n, err, r) := Read (obr_r o) (firstn 1 p) in
    (p1 ++ skipn 1 p, n, err, MkOneByteReader r).

(** A datagram sink: every [Write] is one message, and a message longer
    than [max_msg] is refused whole with [EMSGSIZE]. *)
Record PacketWriter : Type :=
  MkPacketWriter { max_msg : Z; sent : list (list byte) }.

#[export] Instance PacketWriter_Writer : Writer PacketWriter := fun w p =>
  if max_msg w <? len p then (0, Some EMSGSIZE, w)
  else (len p, None, MkPacketWriter (max_msg w) (sent w ++ [p])).

(** The bytes of an ASCII text. *)
Definition bytes_of_string (s : String.string) : list byte :=
  String.list_byte_of_string s.

(** ** Notions used to state the properties *)

(** The byte that [writeBoolean] hands to the sink. *)
Definition bool_byte (d : bool) : byte := if d then Byte.x01 else Byte.x00.

(** The [int8] that a byte of the stream stands for. *)
Definition int8_of_byte (b : byte) : Z := int8 (byte.unsigned b).

(** The bytes that [writeString] and [writeByteString] hand to the sink
    for [d], prefix first. *)
Definition string_bytes (d : list byte) : list byte :=
  order.PutUint32 (uint32 (int32 (len d))) ++ d.

(** The greatest [int32] and [int16]. *)
Definition MaxInt32 : Z := 2147483647.
Definition MaxInt16 : Z := 32767.

Module WireFloat.

(** The encoding of a 64-bit float that the wire protocol describes:
    the bits of the IEEE 754 binary64 value, what [math.Float64bits]
    returns: sign, eleven bits of biased exponent, fifty-two bits of
    fraction.  [spec_float] keeps no NaN payload; the NaN here is the one
    of [math.NaN]. *)
Definition sign_bit (s : bool) : Z := if s then 2 ^ 63 else 0.

Definition ieee_bits (d : float64) : Z :=
  match d with
  | S754_zero s => sign_bit s
  | S754_infinity s => sign_bit s + 2047 * 2 ^ 52
  | S754_nan => 2047 * 2 ^ 52 + 2 ^ 51 + 1
  | S754_finite s m e =>
      if Z.pos m <? 2 ^ 52 then sign_bit s + Z.pos m
      else sign_bit s + (e + 1075) * 2 ^ 52 + (Z.pos m - 2 ^ 52)
  end.

(** The eight bytes the description asks [writeFloat] to write. *)
Definition described_bytes (d : float64) : list byte :=
  order.PutUint64 (ieee_bits d).

End WireFloat.

(** 3.5 and 3.0 as [float64]. *)
Definition float_3_5 : float64 := S754_finite false 7881299347898368 (-51).
Definition float_3_0 : float64 := S754_finite false 6755399441055744 (-51).

(** A [float64] whose integer part is zero: a zero of either sign or a
    finite value of magnitude below one. *)
Definition integer_part_zero (d : float64) : bool :=
  match d with
  | S754_zero _ => true
  | S754_finite _ m e => trunc m e =? 0
  | S754_infinity _ | S754_nan => false
  end.

(** The strings [ss] written one after the other with [writeString]. *)
Definition writeStrings (w : Buffer) (ss : list (list byte)) : Buffer :=
  fold_left (fun w s => snd (writeString w s)) ss w.

(** The bytes [bs] written one after the other with [writeByte], as
    [int8] values. *)
Definition writeBytes (w : Buffer) (bs : list Z) : Buffer :=
  fold_left (fun w d => snd (writeByte w d)) bs w.

(** A reader that is watched: it passes every [Read] on to the reader it
    wraps, notes the length of the slice of each request, and reports as
    the number of bytes read whatever [report] makes of the real number.
    A caller that looks at the number is misled by it; a caller that
    never does cannot tell. *)
Record Probe (R : Type) : Type :=
  MkProbe { probed : R; report : Z -> Z; requests : list nat }.
Arguments MkProbe {R} probed report requests.
Arguments probed {R} p.
Arguments report {R} p.
Arguments requests {R} p.

#[export] Instance Probe_Reader {R : Type} `{Reader R} : Reader (Probe R) :=
  fun pr p =>
    let '(p', n, err, r) := Read (probed pr) p in
    (p', report pr n, err,
     MkProbe r (report pr) (requests pr ++ [length p])).

(** The outcome [o] of an operation on a reader, as the outcome of the
    same operation on the reader watched, when the requests noted at the
    end are [reqs]. *)
Definition behind_probe {R A : Type} (f : Z -> Z) (reqs : list nat)
  (o : outcome (A * option error * R)) : outcome (A * option error * Probe R) :=
  match o with
  | Returns (v, err, r) => Returns (v, err, MkProbe r f reqs)
  | Panics p => Panics p
  end.

(** The same for an operation that cannot panic. *)
Definition behind_probe1 {R A : Type} (f : Z -> Z) (reqs : list nat)
  (o : A * option error * R) : A * option error * Probe R :=
  let '(v, err, r) := o in (v, err, MkProbe r f reqs).

(** The request for the payload of a string: none when the prefix cannot
    be read, else one of the length the prefix announces. *)
Definition payload_request {R : Type} `{Reader R} (r : R) : list nat :=
  let '(n, err, _) := readInt r in
  match err with
  | Some _ => []
  | None => [Z.to_nat n]
  end.

(** The requests for a sequence of strings with payloads of lengths
    [ns]: four bytes and then the payload, for each. *)
Definition string_requests (ns : list nat) : list nat :=
  flat_map (fun n => [4%nat; n]) ns.

(** * Properties *)

(** ** Integer conversions *)

Lemma unsigned_wrap_range (w z : Z) :
  0 <= w -> in_unsigned w (unsigned_wrap w z).
Proof.
  intros Hw. unfold in_unsigned, unsigned_wrap.
  apply Z.mod_pos_bound. apply Z.pow_pos_nonneg; lia.
Qed.

Lemma unsigned_wrap_small (w z : Z) :
  in_unsigned w z -> unsigned_wrap w z = z.
Proof. unfold in_unsigned, unsigned_wrap. intros Hz. apply Z.mod_small, Hz. Qed.

(** Converting a signed value to the unsigned type of its width and back
    gives the value again. *)
Lemma signed_unsigned_wrap (w z : Z) :
  0 < w -> in_signed w z -> signed_wrap w (unsigned_wrap w z) = z.
Proof.
  unfold in_signed, signed_wrap, unsigned_wrap. intros Hw Hz.
  assert (Hp : 2 ^ w = 2 * 2 ^ (w - 1)).
  { replace w with (w - 1 + 1) at 1 by lia. rewrite Z.pow_add_r; lia. }
  assert (H0 : 0 < 2 ^ (w - 1)) by (apply Z.pow_pos_nonneg; lia).
  rewrite Z.mod_mod by lia.
  destruct (Z.ltb_spec z 0) as [Hneg | Hpos].
  - replace (z mod 2 ^ w) with (z + 2 ^ w).
    + destruct (Z.ltb_spec (z + 2 ^ w) (2 ^ (w - 1))); lia.
    + rewrite <- (Z.mod_small (z + 2 ^ w) (2 ^ w)) at 1 by lia.
      replace (z + 2 ^ w) with (z + 1 * 2 ^ w) by lia.
      apply Z.mod_add. lia.
  - rewrite Z.mod_small by lia.
    destruct (Z.ltb_spec z (2 ^ (w - 1))); lia.
Qed.

Lemma signed_wrap_small (w z : Z) :
  0 < w -> in_signed w z -> signed_wrap w z = z.
Proof.
  intros Hw Hz. rewrite <- (signed_unsigned_wrap w z Hw Hz) at 2.
  unfold signed_wrap, unsigned_wrap.
  rewrite Z.mod_mod; [reflexivity|].
  apply Z.pow_nonzero; lia.
Qed.

(** ** Big-endian fields *)

(** A field laid over the bits above a [k]-bit value adds to it. *)
Lemma lor_shiftl_add (a b k : Z) :
  0 <= k -> 0 <= a < 2 ^ k -> Z.lor a (Z.shiftl b k) = a + b * 2 ^ k.
Proof.
  intros Hk Ha.
  rewrite Z.shiftl_mul_pow2 by assumption.
  assert (Hland : Z.land a (b * 2 ^ k) = 0).
  { apply Z.bits_inj'. intros i Hi.
    rewrite Z.land_spec, Z.bits_0.
    destruct (Z.ltb_spec i k) as [Hlt | Hge].
    - rewrite Z.mul_pow2_bits_low by lia. apply andb_false_r.
    - rewrite <- (Z.mod_small a (2 ^ k)) by assumption.
      rewrite Z.mod_pow2_bits_high by lia. reflexivity. }
  rewrite <- Z.lxor_lor by exact Hland.
  symmetry. apply Z.add_nocarry_lxor, Hland.
Qed.

Section Fields.

Variables b0 b1 b2 b3 b4 b5 b6 b7 : byte.

Lemma Uint16_value :
  order.Uint16 [b0; b1] = byte.unsigned b0 * 2 ^ 8 + byte.unsigned b1.
Proof.
  unfold order.Uint16, idx; cbn [nth].
  pose proof (byte.unsigned_range b1).
  rewrite lor_shiftl_add by lia. lia.
Qed.

Lemma Uint32_value :
  order.Uint32 [b0; b1; b2; b3] =
  byte.unsigned b0 * 2 ^ 24 + byte.unsigned b1 * 2 ^ 16 +
  byte.unsigned b2 * 2 ^ 8 + byte.unsigned b3.
Proof.
  unfold order.Uint32, idx; cbn [nth].
  pose proof (byte.unsigned_range b1). pose proof (byte.unsigned_range b2).
  pose proof (byte.unsigned_range b3).
  rewrite (lor_shiftl_add _ _ 8) by lia.
  rewrite (lor_shiftl_add _ _ 16) by lia.
  rewrite (lor_shiftl_add _ _ 24) by lia.
  lia.
Qed.

Lemma Uint64_value :
  order.Uint64 [b0; b1; b2; b3; b4; b5; b6; b7] =
  byte.unsigned b0 * 2 ^ 56 + byte.unsigned b1 * 2 ^ 48 +
  byte.unsigned b2 * 2 ^ 40 + byte.unsigned b3 * 2 ^ 32 +
  byte.unsigned b4 * 2 ^ 24 + byte.unsigned b5 * 2 ^ 16 +
  byte.unsigned b6 * 2 ^ 8 + byte.unsigned b7.
Proof.
  unfold order.Uint64, idx; cbn [nth].
  pose proof (byte.unsigned_range b1). pose proof (byte.unsigned_range b2).
  pose proof (byte.unsigned_range b3). pose proof (byte.unsigned_range b4).
  pose proof (byte.unsigned_range b5). pose proof (byte.unsigned_range b6).
  pose proof (byte.unsigned_range b7).
  rewrite (lor_shiftl_add _ _ 8) by lia.
  rewrite (lor_shiftl_add _ _ 16) by lia.
  rewrite (lor_shiftl_add _ _ 24) by lia.
  rewrite (lor_shiftl_add _ _ 32) by lia.
  rewrite (lor_shiftl_add _ _ 40) by lia.
  rewrite (lor_shiftl_add _ _ 48) by lia.
  rewrite (lor_shiftl_add _ _ 56) by lia.
  lia.
Qed.

End Fields.

(** The byte [k] bits up in [v]. *)
Lemma byte_of_shiftr (v k : Z) :
  0 <= k -> byte.unsigned (byte.of_Z (Z.shiftr v k)) = (v / 2 ^ k) mod 2 ^ 8.
Proof.
  intros Hk. rewrite byte.unsigned_of_Z. unfold byte.wrap.
  rewrite Z.shiftr_div_pow2 by assumption. reflexivity.
Qed.

Lemma byte_of_low (v : Z) : byte.unsigned (byte.of_Z v) = v mod 2 ^ 8.
Proof. apply byte.unsigned_of_Z. Qed.

Lemma Uint16_PutUint16 (v : Z) :
  order.Uint16 (order.PutUint16 v) = v mod 2 ^ 16.
Proof.
  unfold order.PutUint16. rewrite Uint16_value.
  rewrite byte_of_shiftr, byte_of_low by lia.
  Z.div_mod_to_equations; lia.
Qed.

Lemma Uint32_PutUint32 (v : Z) :
  order.Uint32 (order.PutUint32 v) = v mod 2 ^ 32.
Proof.
  unfold order.PutUint32. rewrite Uint32_value.
  rewrite !byte_of_shiftr, byte_of_low by lia.
  Z.div_mod_to_equations; lia.
Qed.

Lemma Uint64_PutUint64 (v : Z) :
  order.Uint64 (order.PutUint64 v) = v mod 2 ^ 64.
Proof.
  unfold order.PutUint64. rewrite Uint64_value.
  rewrite !byte_of_shiftr, byte_of_low by lia.
  Z.div_mod_to_equations; lia.
Qed.

Lemma PutUint16_length (v : Z) : length (order.PutUint16 v) = 2%nat.
Proof. reflexivity. Qed.

Lemma PutUint32_length (v : Z) : length (order.PutUint32 v) = 4%nat.
Proof. reflexivity. Qed.

Lemma PutUint64_length (v : Z) : length (order.PutUint64 v) = 8%nat.
Proof. reflexivity. Qed.

(** ** The in-memory buffer as a source and a sink *)

Lemma Buffer_Write (l p : list byte) :
  Write (NewBuffer l) p = (len p, None, NewBuffer (l ++ p)).
Proof. reflexivity. Qed.

(** A buffer that holds the whole field fills it in one [Read]. *)
Lemma Buffer_Read_full (p q rest : list byte) :
  length q = length p ->
  Read (NewBuffer (p ++ rest)) q = (p, len p, None, NewBuffer rest).
Proof.
  intros Hq. unfold Read, Buffer_Reader, len. cbn [unread].
  destruct (p ++ rest) as [|c l] eqn:E.
  - apply app_eq_nil in E. destruct E as [-> ->].
    destruct q; [reflexivity | discriminate].
  - rewrite <- E. rewrite Hq, length_app.
    replace (Nat.min (length p) (length p + length rest)) with (length p)
      by lia.
    rewrite firstn_app, firstn_all, Nat.sub_diag, firstn_O, app_nil_r.
    rewrite skipn_app, skipn_all, Nat.sub_diag, skipn_O.
    rewrite <- Hq, skipn_all, app_nil_r. reflexivity.
Qed.

(** A buffer that holds less than the field, and is not empty, hands out
    what it has and reports no error. *)
Lemma Buffer_Read_short (c : byte) (l q : list byte) :
  (length (c :: l) < length q)%nat ->
  Read (NewBuffer (c :: l)) q =
  ((c :: l) ++ skipn (length (c :: l)) q, len (c :: l), None, NewBuffer []).
Proof.
  intros Hlt. unfold Read, Buffer_Reader, len. cbn [unread].
  replace (Nat.min (length q) (length (c :: l))) with (length (c :: l))
    by lia.
  rewrite firstn_all, skipn_all. reflexivity.
Qed.

Lemma Buffer_Read_empty (q : list byte) :
  q <> [] -> Read (NewBuffer []) q = (q, 0, Some EOF, NewBuffer []).
Proof. intros Hq. destruct q; [congruence | reflexivity]. Qed.

Section BufferFields.

Variable rest : list byte.

Lemma readByte_Buffer (b : byte) :
  readByte (NewBuffer (b :: rest)) =
  (int8 (byte.unsigned b), None, NewBuffer rest).
Proof.
  unfold readByte. change (b :: rest) with ([b] ++ rest).
  rewrite (Buffer_Read_full [b] [Byte.x00] rest eq_refl). reflexivity.
Qed.

Lemma readShort_Buffer (p : list byte) :
  length p = 2%nat ->
  readShort (NewBuffer (p ++ rest)) =
  (int16 (order.Uint16 p), None, NewBuffer rest).
Proof.
  intros Hp. unfold readShort.
  rewrite (Buffer_Read_full p _ rest) by (rewrite repeat_length; auto).
  reflexivity.
Qed.

Lemma readInt_Buffer (p : list byte) :
  length p = 4%nat ->
  readInt (NewBuffer (p ++ rest)) =
  (int32 (order.Uint32 p), None, NewBuffer rest).
Proof.
  intros Hp. unfold readInt.
  rewrite (Buffer_Read_full p _ rest) by (rewrite repeat_length; auto).
  reflexivity.
Qed.

Lemma readLong_Buffer (p : list byte) :
  length p = 8%nat ->
  readLong (NewBuffer (p ++ rest)) =
  (int64 (order.Uint64 p), None, NewBuffer rest).
Proof.
  intros Hp. unfold readLong.
  rewrite (Buffer_Read_full p _ rest) by (rewrite repeat_length; auto).
  reflexivity.
Qed.

Lemma readFloat_Buffer (p : list byte) :
  length p = 8%nat ->
  readFloat (NewBuffer (p ++ rest)) =
  (of_uint64 (order.Uint64 p), None, NewBuffer rest).
Proof.
  intros Hp. unfold readFloat.
  rewrite (Buffer_Read_full p _ rest) by (rewrite repeat_length; auto).
  reflexivity.
Qed.

End BufferFields.

(** What each integer writer leaves in a buffer. *)
Lemma writeByte_Buffer (l : list byte) (d : Z) :
  writeByte (NewBuffer l) d = (None, NewBuffer (l ++ [byte.of_Z (uint8 d)])).
Proof. reflexivity. Qed.

Lemma writeShort_Buffer (l : list byte) (d : Z) :
  writeShort (NewBuffer l) d =
  (None, NewBuffer (l ++ order.PutUint16 (uint16 d))).
Proof. reflexivity. Qed.

Lemma writeInt_Buffer (l : list byte) (d : Z) :
  writeInt (NewBuffer l) d =
  (None, NewBuffer (l ++ order.PutUint32 (uint32 d))).
Proof. reflexivity. Qed.

Lemma writeLong_Buffer (l : list byte) (d : Z) :
  writeLong (NewBuffer l) d =
  (None, NewBuffer (l ++ order.PutUint64 (uint64 d))).
Proof. reflexivity. Qed.

(** The signed value of a field that holds the unsigned image of [v]. *)
Lemma int8_byte (v : Z) :
  in_signed 8 v -> int8 (byte.unsigned (byte.of_Z (uint8 v))) = v.
Proof.
  intros Hv. rewrite byte.unsigned_of_Z.
  change (byte.wrap (uint8 v)) with (unsigned_wrap 8 (unsigned_wrap 8 v)).
  rewrite (unsigned_wrap_small 8 (unsigned_wrap 8 v))
    by (apply unsigned_wrap_range; lia).
  apply signed_unsigned_wrap; [lia | exact Hv].
Qed.

Lemma int16_field (v : Z) :
  in_signed 16 v -> int16 (order.Uint16 (order.PutUint16 (uint16 v))) = v.
Proof.
  intros Hv. rewrite Uint16_PutUint16.
  change (uint16 v mod 2 ^ 16) with (unsigned_wrap 16 (unsigned_wrap 16 v)).
  rewrite (unsigned_wrap_small 16 (unsigned_wrap 16 v))
    by (apply unsigned_wrap_range; lia).
  apply signed_unsigned_wrap; [lia | exact Hv].
Qed.

Lemma int32_field (v : Z) :
  in_signed 32 v -> int32 (order.Uint32 (order.PutUint32 (uint32 v))) = v.
Proof.
  intros Hv. rewrite Uint32_PutUint32.
  change (uint32 v mod 2 ^ 32) with (unsigned_wrap 32 (unsigned_wrap 32 v)).
  rewrite (unsigned_wrap_small 32 (unsigned_wrap 32 v))
    by (apply unsigned_wrap_range; lia).
  apply signed_unsigned_wrap; [lia | exact Hv].
Qed.

Lemma int64_field (v : Z) :
  in_signed 64 v -> int64 (order.Uint64 (order.PutUint64 (uint64 v))) = v.
Proof.
  intros Hv. rewrite Uint64_PutUint64.
  change (uint64 v mod 2 ^ 64) with (unsigned_wrap 64 (unsigned_wrap 64 v)).
  rewrite (unsigned_wrap_small 64 (unsigned_wrap 64 v))
    by (apply unsigned_wrap_range; lia).
  apply signed_unsigned_wrap; [lia | exact Hv].
Qed.

(** ** Fixed-width integers *)

(** C5: a value of a signed type of 8, 16, 32 or 64 bits, written by
    [writeByte], [writeShort], [writeInt] or [writeLong] into an empty
    buffer, is what the matching [readByte], [readShort], [readInt] or
    [readLong] returns from the bytes produced; the write reports no error
    and the read uses up all the bytes. *)
Theorem integer_roundtrip (v8 v16 v32 v64 : Z) :
  in_signed 8 v8 -> in_signed 16 v16 ->
  in_signed 32 v32 -> in_signed 64 v64 ->
  (fst (writeByte (NewBuffer []) v8) = None /\
   readByte (snd (writeByte (NewBuffer []) v8)) = (v8, None, NewBuffer []))
  /\
  (fst (writeShort (NewBuffer []) v16) = None /\
   readShort (snd (writeShort (NewBuffer []) v16)) = (v16, None, NewBuffer []))
  /\
  (fst (writeInt (NewBuffer []) v32) = None /\
   readInt (snd (writeInt (NewBuffer []) v32)) = (v32, None, NewBuffer []))
  /\
  (fst (writeLong (NewBuffer []) v64) = None /\
   readLong (snd (writeLong (NewBuffer []) v64)) = (v64, None, NewBuffer [])).
Proof.
  intros H8 H16 H32 H64.
  rewrite writeByte_Buffer, writeShort_Buffer, writeInt_Buffer,
    writeLong_Buffer.
  cbn [fst snd app].
  repeat split.
  - rewrite readByte_Buffer, int8_byte by assumption. reflexivity.
  - rewrite <- (app_nil_r (order.PutUint16 _)).
    rewrite readShort_Buffer, int16_field by auto using PutUint16_length.
    reflexivity.
  - rewrite <- (app_nil_r (order.PutUint32 _)).
    rewrite readInt_Buffer, int32_field by auto using PutUint32_length.
    reflexivity.
  - rewrite <- (app_nil_r (order.PutUint64 _)).
    rewrite readLong_Buffer, int64_field by auto using PutUint64_length.
    reflexivity.
Qed.

(** The round trip at the least [int8], the greatest [int16], zero and the
    least [int64]. *)
Lemma integer_roundtrip_witness :
  in_signed 8 (-128) /\ in_signed 16 32767 /\ in_signed 32 0 /\
  in_signed 64 (-9223372036854775808) /\
  readByte (snd (writeByte (NewBuffer []) (-128))) =
    (-128, None, NewBuffer []) /\
  readShort (snd (writeShort (NewBuffer []) 32767)) =
    (32767, None, NewBuffer []) /\
  readInt (snd (writeInt (NewBuffer []) 0)) = (0, None, NewBuffer []) /\
  readLong (snd (writeLong (NewBuffer []) (-9223372036854775808))) =
    (-9223372036854775808, None, NewBuffer []).
Proof.
  assert (H8 : in_signed 8 (-128)) by (unfold in_signed; simpl; lia).
  assert (H16 : in_signed 16 32767) by (unfold in_signed; simpl; lia).
  assert (H32 : in_signed 32 0) by (unfold in_signed; simpl; lia).
  assert (H64 : in_signed 64 (-9223372036854775808))
    by (unfold in_signed; simpl; lia).
  pose proof (integer_roundtrip _ _ _ _ H8 H16 H32 H64) as
    [[_ R8] [[_ R16] [[_ R32] [_ R64]]]].
  exact (conj H8 (conj H16 (conj H32 (conj H64
           (conj R8 (conj R16 (conj R32 R64))))))).
Defined.

(** ** Booleans and the protocol version *)

Lemma int8_byte_zero (b : byte) :
  (int8 (byte.unsigned b) =? 0) = Byte.eqb b Byte.x00.
Proof. destruct b; reflexivity. Qed.

(** C6: [writeBoolean] makes one [Write] of the single byte 0x01 for true
    and 0x00 for false, so a buffer grows by exactly that byte;
    [readBoolean] makes one [Read] into a one-byte slice and, from a buffer,
    takes exactly one byte and returns true if and only if that byte is not
    zero; the byte 0x07 reads as true. *)
Theorem boolean_codec :
  (forall (W : Type) (WW : Writer W) (w : W) (d : bool),
      writeBoolean w d =
      let '(_, err, w') := Write w [bool_byte d] in (err, w')) /\
  (forall (l : list byte) (d : bool),
      writeBoolean (NewBuffer l) d = (None, NewBuffer (l ++ [bool_byte d]))) /\
  (forall (b : byte) (rest : list byte),
      readBoolean (NewBuffer (b :: rest)) =
      (negb (Byte.eqb b Byte.x00), None, NewBuffer rest)) /\
  (forall rest : list byte,
      readBoolean (NewBuffer (Byte.x07 :: rest)) =
      (true, None, NewBuffer rest)).
Proof.
  split; [| split; [| split]].
  - intros W WW w []; reflexivity.
  - intros l []; reflexivity.
  - intros b rest. unfold readBoolean.
    rewrite readByte_Buffer, int8_byte_zero. reflexivity.
  - intros rest. unfold readBoolean. rewrite readByte_Buffer. reflexivity.
Qed.

(** C9: [writeProtoVersion] makes one [Write] of one byte, the byte whose
    value is [protoVersion], and [protoVersion] is 1; a buffer grows by the
    byte 0x01. *)
Theorem writeProtoVersion_byte :
  protoVersion = 1 /\
  byte.unsigned Byte.x01 = protoVersion /\
  (forall (W : Type) (WW : Writer W) (w : W),
      writeProtoVersion w =
      let '(_, err, w') := Write w [Byte.x01] in (err, w')) /\
  (forall l : list byte,
      writeProtoVersion (NewBuffer l) = (None, NewBuffer (l ++ [Byte.x01]))).
Proof.
  split; [reflexivity | split; [reflexivity | split]].
  - intros W WW w. reflexivity.
  - intros l. reflexivity.
Qed.

(** ** Strings *)

Lemma len_nonneg {A : Type} (l : list A) : 0 <= len l.
Proof. unfold len. lia. Qed.

Lemma len_app {A : Type} (l1 l2 : list A) : len (l1 ++ l2) = len l1 + len l2.
Proof. unfold len. rewrite length_app. lia. Qed.

(** [make] with a length that is not negative. *)
Lemma make_len {A : Type} (z : A) (l : list byte) :
  make z (len l) = Returns (repeat z (length l)).
Proof.
  unfold make, len.
  destruct (Z.ltb_spec (Z.of_nat (length l)) 0); [lia|].
  rewrite Nat2Z.id. reflexivity.
Qed.

Lemma make_negative {A : Type} (z : A) (n : Z) :
  n < 0 -> make z n = Panics makeslice_len_out_of_range.
Proof. intros Hn. unfold make. destruct (Z.ltb_spec n 0); [reflexivity | lia]. Qed.

(** The prefix of a string that fits the length field. *)
Lemma prefix_fits (d : list byte) :
  len d <= MaxInt32 -> uint32 (int32 (len d)) = len d.
Proof.
  intros Hd. pose proof (len_nonneg d) as H0. unfold MaxInt32 in Hd.
  unfold int32. rewrite signed_wrap_small;
    [| lia | unfold in_signed; simpl; lia].
  apply unsigned_wrap_small. unfold in_unsigned. simpl. lia.
Qed.

Lemma prefix_value (d : list byte) :
  len d <= MaxInt32 ->
  int32 (order.Uint32 (order.PutUint32 (len d))) = len d.
Proof.
  intros Hd. pose proof (len_nonneg d) as H0. unfold MaxInt32 in Hd.
  rewrite Uint32_PutUint32. rewrite Z.mod_small by (simpl; lia).
  apply signed_wrap_small; [lia | unfold in_signed; simpl; lia].
Qed.

Lemma writeString_Buffer (l d : list byte) :
  writeString (NewBuffer l) d = (None, NewBuffer (l ++ string_bytes d)).
Proof.
  unfold writeString, io_WriteString, string_bytes.
  rewrite writeInt_Buffer, Buffer_Write, app_assoc. reflexivity.
Qed.

Lemma writeByteString_Buffer (l d : list byte) :
  writeByteString (NewBuffer l) d = (None, NewBuffer (l ++ string_bytes d)).
Proof.
  unfold writeByteString, string_bytes.
  rewrite writeInt_Buffer, Buffer_Write, app_assoc. reflexivity.
Qed.

(** [readString] on a buffer that starts with a prefix and the payload the
    prefix announces. *)
Lemma readString_Buffer (p d rest : list byte) :
  length p = 4%nat -> int32 (order.Uint32 p) = len d ->
  readString (NewBuffer (p ++ d ++ rest)) = Returns (d, None, NewBuffer rest).
Proof.
  intros Hp Hd. unfold readString.
  rewrite readInt_Buffer by exact Hp. rewrite Hd, make_len.
  rewrite Buffer_Read_full by apply repeat_length. reflexivity.
Qed.

Lemma readString_string_bytes (d rest : list byte) :
  len d <= MaxInt32 ->
  readString (NewBuffer (string_bytes d ++ rest)) =
  Returns (d, None, NewBuffer rest).
Proof.
  intros Hd. unfold string_bytes.
  rewrite prefix_fits by exact Hd. rewrite <- app_assoc.
  apply readString_Buffer; [reflexivity | apply prefix_value, Hd].
Qed.

(** C7, as amended: for a string of at most [MaxInt32] bytes,
    [writeString] appends to a buffer the four bytes of the big-endian
    length of the string, a length that reads back as the signed number of
    bytes of the string, and then the bytes of the string and nothing else;
    [readString] on these bytes returns the string and leaves what follows
    them.  The empty string is four zero bytes and reads back as the empty
    string. *)
Theorem string_codec (s l rest : list byte) :
  len s <= MaxInt32 ->
  writeString (NewBuffer l) s =
    (None, NewBuffer (l ++ order.PutUint32 (len s) ++ s)) /\
  length (order.PutUint32 (len s)) = 4%nat /\
  int32 (order.Uint32 (order.PutUint32 (len s))) = len s /\
  readString (NewBuffer ((order.PutUint32 (len s) ++ s) ++ rest)) =
    Returns (s, None, NewBuffer rest) /\
  writeString (NewBuffer []) [] =
    (None, NewBuffer [Byte.x00; Byte.x00; Byte.x00; Byte.x00]) /\
  readString (NewBuffer [Byte.x00; Byte.x00; Byte.x00; Byte.x00]) =
    Returns ([], None, NewBuffer []).
Proof.
  intros Hs.
  pose proof (readString_string_bytes s rest Hs) as Hread.
  rewrite writeString_Buffer. unfold string_bytes in *.
  rewrite prefix_fits in * by exact Hs.
  repeat (split; [first [reflexivity | assumption | apply prefix_value, Hs] |]).
  reflexivity.
Qed.

(** The string "ok": six bytes on the wire, read back whole. *)
Lemma string_codec_witness :
  len (bytes_of_string "ok") <= MaxInt32 /\
  writeString (NewBuffer []) (bytes_of_string "ok") =
    (None, NewBuffer [Byte.x00; Byte.x00; Byte.x00; Byte.x02;
                      Byte.x6f; Byte.x6b]) /\
  readString (NewBuffer [Byte.x00; Byte.x00; Byte.x00; Byte.x02;
                         Byte.x6f; Byte.x6b]) =
    Returns (bytes_of_string "ok", None, NewBuffer []).
Proof.
  assert (Hs : len (bytes_of_string "ok") <= MaxInt32)
    by (vm_compute; discriminate).
  destruct (string_codec (bytes_of_string "ok") [] [] Hs)
    as (Hw & _ & _ & Hr & _).
  exact (conj Hs (conj Hw Hr)).
Defined.

(** A string of 2^31 bytes: its length does not fit the signed four-byte
    field, the prefix written is 80 00 00 00, which reads as -2^31, and
    [readString] on the bytes written panics. *)
Lemma writeString_prefix_wraps (s : list byte) :
  len s = 2147483648 ->
  firstn 4 (unread (snd (writeString (NewBuffer []) s))) =
    [Byte.x80; Byte.x00; Byte.x00; Byte.x00] /\
  int32 (order.Uint32 [Byte.x80; Byte.x00; Byte.x00; Byte.x00]) =
    -2147483648 /\
  readString (snd (writeString (NewBuffer []) s)) =
    Panics makeslice_len_out_of_range.
Proof.
  intros Hs. rewrite writeString_Buffer. cbn [snd unread app].
  unfold string_bytes. rewrite Hs.
  assert (Hp : order.PutUint32 (uint32 (int32 2147483648)) =
               [Byte.x80; Byte.x00; Byte.x00; Byte.x00])
    by (vm_compute; reflexivity).
  assert (Hv : int32 (order.Uint32 [Byte.x80; Byte.x00; Byte.x00; Byte.x00])
               = -2147483648) by (vm_compute; reflexivity).
  rewrite Hp. split; [reflexivity | split; [exact Hv |]].
  unfold readString.
  rewrite (readInt_Buffer s [Byte.x80; Byte.x00; Byte.x00; Byte.x00] eq_refl).
  rewrite Hv. reflexivity.
Qed.

Lemma len_repeat {A : Type} (a : A) (n : Z) :
  0 <= n -> len (repeat a (Z.to_nat n)) = n.
Proof. intros Hn. unfold len. rewrite repeat_length. apply Z2Nat.id, Hn. Qed.

(** C7 fails for a string of 2^31 bytes (2^31 times the letter a): the
    four-byte length written reads as -2^31, not as the number of bytes of
    the string, and [readString] does not give the string back. *)
Lemma string_codec_counterexample :
  let s := repeat Byte.x61 (Z.to_nat 2147483648) in
  int32 (order.Uint32
           (firstn 4 (unread (snd (writeString (NewBuffer []) s))))) <> len s
  /\
  readString (snd (writeString (NewBuffer []) s)) <>
    Returns (s, None, NewBuffer []).
Proof.
  intros s.
  assert (Hs : len s = 2147483648) by (apply len_repeat; lia).
  destruct (writeString_prefix_wraps s Hs) as (Hp & Hv & Hr).
  rewrite Hp, Hv, Hs, Hr. split; discriminate.
Qed.

(** ** Arrays *)

Lemma store_app {A : Type} (done todo : list A) (old v : A) :
  store (done ++ old :: todo) (length done) v = done ++ v :: todo.
Proof.
  induction done as [|h t IH]; cbn [store app length];
    [reflexivity | rewrite IH; reflexivity].
Qed.

Lemma readByteArray_loop_Buffer (bs rest : list byte) :
  forall done : list Z,
    readByteArray_loop (length bs) (length done)
      (done ++ repeat 0 (length bs)) (NewBuffer (bs ++ rest)) =
    (done ++ map int8_of_byte bs, None, NewBuffer rest).
Proof.
  induction bs as [|b bs IH]; intros done.
  - reflexivity.
  - cbn [length repeat readByteArray_loop app map].
    rewrite readByte_Buffer, store_app.
    replace (S (length done)) with (length (done ++ [int8 (byte.unsigned b)]))
      by (rewrite length_app; cbn [length]; lia).
    replace (done ++ int8 (byte.unsigned b) :: repeat 0 (length bs))
      with ((done ++ [int8 (byte.unsigned b)]) ++ repeat 0 (length bs))
      by (rewrite <- app_assoc; reflexivity).
    rewrite IH, <- app_assoc. reflexivity.
Qed.

Lemma readByteArray_Buffer (p bs rest : list byte) :
  length p = 4%nat -> int32 (order.Uint32 p) = len bs ->
  readByteArray (NewBuffer (p ++ bs ++ rest)) =
  Returns (map int8_of_byte bs, None, NewBuffer rest).
Proof.
  intros Hp Hn. unfold readByteArray.
  rewrite readInt_Buffer by exact Hp. rewrite Hn, make_len, repeat_length.
  exact (f_equal Returns (readByteArray_loop_Buffer bs rest [])).
Qed.

Lemma readStringArray_loop_Buffer (rest : list byte) (ss : list (list byte)) :
  Forall (fun s => len s <= MaxInt32) ss ->
  forall done : list (list byte),
    readStringArray_loop (length ss) (length done)
      (done ++ repeat [] (length ss))
      (NewBuffer (concat (map string_bytes ss) ++ rest)) =
    Returns (done ++ ss, None, NewBuffer rest).
Proof.
  induction 1 as [|s ss Hs Hss IH]; intros done.
  - cbn. rewrite app_nil_r. reflexivity.
  - cbn [length repeat readStringArray_loop map concat].
    rewrite <- app_assoc, readString_string_bytes by exact Hs.
    rewrite store_app.
    replace (S (length done)) with (length (done ++ [s]))
      by (rewrite length_app; cbn [length]; lia).
    replace (done ++ s :: repeat [] (length ss))
      with ((done ++ [s]) ++ repeat [] (length ss))
      by (rewrite <- app_assoc; reflexivity).
    rewrite IH, <- app_assoc. reflexivity.
Qed.

Lemma count_value (n : Z) :
  0 <= n <= MaxInt16 -> int16 (order.Uint16 (order.PutUint16 n)) = n.
Proof.
  unfold MaxInt16. intros Hn.
  rewrite Uint16_PutUint16. rewrite Z.mod_small by (simpl; lia).
  apply signed_wrap_small; [lia | unfold in_signed; simpl; lia].
Qed.

(** C8: [readStringArray] reads a two-byte signed count and then exactly
    that many strings, each a four-byte length and its bytes;
    [readByteArray] reads a four-byte signed count and then exactly that
    many bytes, each an [int8]; the bytes after the last element stay in
    the buffer. *)
Theorem array_readers (ss : list (list byte)) (bs rest : list byte) :
  len ss <= MaxInt16 ->
  Forall (fun s => len s <= MaxInt32) ss ->
  len bs <= MaxInt32 ->
  (length (order.PutUint16 (len ss)) = 2%nat /\
   int16 (order.Uint16 (order.PutUint16 (len ss))) = len ss /\
   readStringArray
     (NewBuffer (order.PutUint16 (len ss) ++
                 concat (map string_bytes ss) ++ rest)) =
   Returns (ss, None, NewBuffer rest))
  /\
  (length (order.PutUint32 (len bs)) = 4%nat /\
   int32 (order.Uint32 (order.PutUint32 (len bs))) = len bs /\
   readByteArray (NewBuffer (order.PutUint32 (len bs) ++ bs ++ rest)) =
   Returns (map int8_of_byte bs, None, NewBuffer rest)).
Proof.
  intros Hn Hss Hbs.
  assert (Hc : int16 (order.Uint16 (order.PutUint16 (len ss))) = len ss)
    by (apply count_value; split; [apply len_nonneg | exact Hn]).
  split; (split; [reflexivity | split]).
  - exact Hc.
  - unfold readStringArray.
    rewrite readShort_Buffer by reflexivity. rewrite Hc.
    unfold make, len. destruct (Z.ltb_spec (Z.of_nat (length ss)) 0); [lia|].
    rewrite Nat2Z.id, repeat_length.
    apply (readStringArray_loop_Buffer rest ss Hss []).
  - apply prefix_value, Hbs.
  - apply readByteArray_Buffer; [reflexivity | apply prefix_value, Hbs].
Qed.

(** Two strings, "A" and the empty one, and the bytes ff 07, each followed
    by a byte that is not part of the array. *)
Lemma array_readers_witness :
  readStringArray
    (NewBuffer [Byte.x00; Byte.x02;
                Byte.x00; Byte.x00; Byte.x00; Byte.x01; Byte.x41;
                Byte.x00; Byte.x00; Byte.x00; Byte.x00;
                Byte.x01]) =
    Returns ([[Byte.x41]; []], None, NewBuffer [Byte.x01]) /\
  readByteArray
    (NewBuffer [Byte.x00; Byte.x00; Byte.x00; Byte.x02;
                Byte.xff; Byte.x07; Byte.x01]) =
    Returns ([-1; 7], None, NewBuffer [Byte.x01]).
Proof.
  assert (Hn : len [[Byte.x41]; ([] : list byte)] <= MaxInt16)
    by (vm_compute; discriminate).
  assert (Hss : Forall (fun s : list byte => len s <= MaxInt32)
                  [[Byte.x41]; []])
    by (repeat constructor; vm_compute; discriminate).
  assert (Hbs : len [Byte.xff; Byte.x07] <= MaxInt32)
    by (vm_compute; discriminate).
  destruct (array_readers [[Byte.x41]; []] [Byte.xff; Byte.x07] [Byte.x01]
              Hn Hss Hbs) as [(_ & _ & Hs) (_ & _ & Hb)].
  exact (conj Hs Hb).
Defined.

(** ** Negative lengths *)

(** C2 fails on the four bytes ff ff ff ff: the prefix reads as -1 and
    [readString] panics; it returns no error of any kind. *)
Lemma negative_length_counterexample :
  int32 (order.Uint32 [Byte.xff; Byte.xff; Byte.xff; Byte.xff]) = -1 /\
  ~ (exists (v : list byte) (e : error) (r : Buffer),
        readString (NewBuffer [Byte.xff; Byte.xff; Byte.xff; Byte.xff]) =
        Returns (v, Some e, r)).
Proof.
  split; [vm_compute; reflexivity |].
  intros (v & e & r & Hr). vm_compute in Hr. discriminate Hr.
Qed.

(** C2, as amended: when the four-byte prefix ([readString],
    [readByteArray]) or the two-byte prefix ([readStringArray]) is read
    without error and is negative, the operation returns neither a value
    nor an error: the negative number reaches [make], which panics. *)
Theorem negative_length_panics {R : Type} `{Reader R} (r r' : R) (cnt : Z) :
  cnt < 0 ->
  (readInt r = (cnt, None, r') ->
   readString r = Panics makeslice_len_out_of_range /\
   readByteArray r = Panics makeslice_len_out_of_range) /\
  (readShort r = (cnt, None, r') ->
   readStringArray r = Panics makeslice_len_out_of_range).
Proof.
  intros Hneg. split.
  - intros Hint. unfold readString, readByteArray.
    rewrite Hint, !make_negative by exact Hneg. split; reflexivity.
  - intros Hshort. unfold readStringArray.
    rewrite Hshort, make_negative by exact Hneg. reflexivity.
Qed.

(** The prefixes ff ff ff ff and ff ff, both -1. *)
Lemma negative_length_panics_witness :
  readString (NewBuffer [Byte.xff; Byte.xff; Byte.xff; Byte.xff]) =
    Panics makeslice_len_out_of_range /\
  readByteArray (NewBuffer [Byte.xff; Byte.xff; Byte.xff; Byte.xff]) =
    Panics makeslice_len_out_of_range /\
  readStringArray (NewBuffer [Byte.xff; Byte.xff]) =
    Panics makeslice_len_out_of_range.
Proof.
  assert (Hneg : -1 < 0) by lia.
  destruct (negative_length_panics
              (NewBuffer [Byte.xff; Byte.xff; Byte.xff; Byte.xff])
              (NewBuffer []) (-1) Hneg) as [H4 _].
  destruct (negative_length_panics
              (NewBuffer [Byte.xff; Byte.xff])
              (NewBuffer []) (-1) Hneg) as [_ H2].
  destruct (H4 eq_refl) as [Hs Hb].
  exact (conj Hs (conj Hb (H2 eq_refl))).
Defined.

(** ** Short reads *)

(** C4 fails on a source that hands out one byte per [Read]: with the
    eight bytes 01 .. 08 behind it, [readLong] returns without an error
    after taking the first byte only; the seven bytes that did not arrive
    count as zero. *)
Lemma short_read_counterexample :
  readLong
    (MkOneByteReader
       (NewBuffer [Byte.x01; Byte.x02; Byte.x03; Byte.x04;
                   Byte.x05; Byte.x06; Byte.x07; Byte.x08])) =
  (72057594037927936, None,
   MkOneByteReader
     (NewBuffer [Byte.x02; Byte.x03; Byte.x04;
                 Byte.x05; Byte.x06; Byte.x07; Byte.x08])).
Proof. vm_compute. reflexivity. Qed.

(** The same from a buffer that ends after three bytes. *)
Lemma readLong_at_end_of_buffer :
  readLong (NewBuffer [Byte.x01; Byte.x02; Byte.x03]) =
  (72623842526232576, None, NewBuffer []).
Proof. vm_compute. reflexivity. Qed.

(** ** The value returned with an error *)

Section ErrorValues.

Context {R : Type} `{Reader R}.

Lemma readByteArray_loop_error (n : nat) :
  forall (i : nat) (arr : list Z) (r r' : R) (v : list Z) (e : error),
    readByteArray_loop n i arr r = (v, Some e, r') -> v = [].
Proof.
  induction n as [|n IH]; intros i arr r r' v e Hloop;
    cbn [readByteArray_loop] in Hloop.
  - discriminate Hloop.
  - destruct (readByte r) as [[val [e0|]] r0].
    + injection Hloop as <- _ _. reflexivity.
    + eapply IH, Hloop.
Qed.

Lemma readString_error (r r' : R) (v : list byte) (e : error) :
  readString r = Returns (v, Some e, r') -> v = [].
Proof.
  unfold readString. intros Hread.
  destruct (readInt r) as [[n [e0|]] r0].
  - injection Hread as <- _ _. reflexivity.
  - destruct (make Byte.x00 n) as [bs|p]; [| discriminate Hread].
    destruct (Read r0 bs) as [[[bs' k] [e1|]] r1].
    + injection Hread as <- _ _. reflexivity.
    + discriminate Hread.
Qed.

Lemma readStringArray_loop_error (n : nat) :
  forall (i : nat) (arr : list (list byte)) (r r' : R)
         (v : list (list byte)) (e : error),
    readStringArray_loop n i arr r = Returns (v, Some e, r') -> v = [].
Proof.
  induction n as [|n IH]; intros i arr r r' v e Hloop;
    cbn [readStringArray_loop] in Hloop.
  - discriminate Hloop.
  - destruct (readString r) as [[[val [e0|]] r0]|p].
    + injection Hloop as <- _ _. reflexivity.
    + eapply IH, Hloop.
    + discriminate Hloop.
Qed.

(** C10: a read operation that returns an error returns with it the zero
    value of its result type: false, 0, the float 0, the empty string,
    the nil slice. *)
Theorem error_returns_zero_value (r r' : R) (e : error) :
  (forall v, readBoolean r = (v, Some e, r') -> v = false) /\
  (forall v, readByte r = (v, Some e, r') -> v = 0) /\
  (forall v, readShort r = (v, Some e, r') -> v = 0) /\
  (forall v, readInt r = (v, Some e, r') -> v = 0) /\
  (forall v, readLong r = (v, Some e, r') -> v = 0) /\
  (forall v, readFloat r = (v, Some e, r') -> v = S754_zero false) /\
  (forall v, readString r = Returns (v, Some e, r') -> v = []) /\
  (forall v, readByteArray r = Returns (v, Some e, r') -> v = []) /\
  (forall v, readStringArray r = Returns (v, Some e, r') -> v = []).
Proof.
  repeat match goal with |- _ /\ _ => split end; intros v Hread.
  - unfold readBoolean in Hread.
    destruct (readByte r) as [[val [e0|]] r0];
      [injection Hread as <- _ _; reflexivity | discriminate Hread].
  - unfold readByte in Hread.
    destruct (Read r _) as [[[bs k] [e0|]] r0];
      [injection Hread as <- _ _; reflexivity | discriminate Hread].
  - unfold readShort in Hread.
    destruct (Read r _) as [[[bs k] [e0|]] r0];
      [injection Hread as <- _ _; reflexivity | discriminate Hread].
  - unfold readInt in Hread.
    destruct (Read r _) as [[[bs k] [e0|]] r0];
      [injection Hread as <- _ _; reflexivity | discriminate Hread].
  - unfold readLong in Hread.
    destruct (Read r _) as [[[bs k] [e0|]] r0];
      [injection Hread as <- _ _; reflexivity | discriminate Hread].
  - unfold readFloat in Hread.
    destruct (Read r _) as [[[bs k] [e0|]] r0];
      [injection Hread as <- _ _; reflexivity | discriminate Hread].
  - eapply readString_error, Hread.
  - unfold readByteArray in Hread.
    destruct (readInt r) as [[n [e0|]] r0].
    + injection Hread as <- _ _. reflexivity.
    + destruct (make 0 n) as [arr|p]; [| discriminate Hread].
      injection Hread as Hloop. eapply readByteArray_loop_error, Hloop.
  - unfold readStringArray in Hread.
    destruct (readShort r) as [[n [e0|]] r0].
    + injection Hread as <- _ _. reflexivity.
    + destruct (make [] n) as [arr|p]; [| discriminate Hread].
      eapply readStringArray_loop_error, Hread.
Qed.

End ErrorValues.

(** An empty buffer, and a buffer that ends after the prefix of a string or
    after the first byte of an array of two: each read ends with [io.EOF],
    and the value next to it is the zero value. *)
Lemma error_returns_zero_value_witness :
  snd (fst (readBoolean (NewBuffer []))) = Some EOF /\
  fst (fst (readBoolean (NewBuffer []))) = false /\
  fst (fst (readLong (NewBuffer []))) = 0 /\
  (exists v,
      readString (NewBuffer [Byte.x00; Byte.x00; Byte.x00; Byte.x02]) =
      Returns (v, Some EOF, NewBuffer []) /\ v = []) /\
  (exists v,
      readByteArray (NewBuffer [Byte.x00; Byte.x00; Byte.x00; Byte.x02;
                                Byte.x07]) =
      Returns (v, Some EOF, NewBuffer []) /\ v = []).
Proof.
  pose proof (error_returns_zero_value (NewBuffer []) (NewBuffer []) EOF)
    as (Hbool & _ & _ & _ & Hlong & _).
  pose proof (error_returns_zero_value
                (NewBuffer [Byte.x00; Byte.x00; Byte.x00; Byte.x02])
                (NewBuffer []) EOF)
    as (_ & _ & _ & _ & _ & _ & Hstr & _).
  pose proof (error_returns_zero_value
                (NewBuffer [Byte.x00; Byte.x00; Byte.x00; Byte.x02; Byte.x07])
                (NewBuffer []) EOF)
    as (_ & _ & _ & _ & _ & _ & _ & Harr & _).
  split; [reflexivity |].
  split; [exact (Hbool _ eq_refl) |].
  split; [exact (Hlong _ eq_refl) |].
  split; eexists; (split; [reflexivity |]).
  - exact (Hstr _ eq_refl).
  - exact (Harr _ eq_refl).
Defined.

(** ** Errors of the sink *)

(** Every writer of a fixed-width value returns the error of its one
    [Write]. *)
Lemma scalar_writers_report {W : Type} `{Writer W} (w : W) (d : Z) :
  writeByte w d =
    (let '(_, err, w') := Write w [byte.of_Z (uint8 d)] in (err, w')) /\
  writeShort w d =
    (let '(_, err, w') := Write w (order.PutUint16 (uint16 d)) in (err, w')) /\
  writeInt w d =
    (let '(_, err, w') := Write w (order.PutUint32 (uint32 d)) in (err, w')) /\
  writeLong w d =
    (let '(_, err, w') := Write w (order.PutUint64 (uint64 d)) in (err, w')).
Proof. repeat split. Qed.

(** C3 at a sink that takes messages of at most three bytes: the four
    bytes of the length are refused, [writeInt] alone reports it, and
    [writeString] and [writeByteString] go on, write the two bytes of "ok"
    and return no error. *)
Theorem length_prefix_error_dropped :
  fst (writeInt (MkPacketWriter 3 []) 2) = Some EMSGSIZE /\
  writeString (MkPacketWriter 3 []) (bytes_of_string "ok") =
    (None, MkPacketWriter 3 [[Byte.x6f; Byte.x6b]]) /\
  writeByteString (MkPacketWriter 3 []) [Byte.x6f; Byte.x6b] =
    (None, MkPacketWriter 3 [[Byte.x6f; Byte.x6b]]).
Proof. repeat split. Qed.

(** ** Floats *)

Lemma float_3_5_valid : valid float_3_5 = true /\ valid float_3_0 = true.
Proof. split; reflexivity. Qed.

(** C1 at 3.5: [writeFloat] writes the integer 3, not the bits of 3.5
    (40 0c 00 00 00 00 00 00), and [readFloat] returns 3.0 from the bytes
    written; whatever the implementation does with values out of range
    plays no part. *)
Theorem writeFloat_truncates (out_of_range : float64 -> Z) :
  writeFloat out_of_range (NewBuffer []) float_3_5 =
    (None, NewBuffer [Byte.x00; Byte.x00; Byte.x00; Byte.x00;
                      Byte.x00; Byte.x00; Byte.x00; Byte.x03]) /\
  WireFloat.described_bytes float_3_5 =
    [Byte.x40; Byte.x0c; Byte.x00; Byte.x00;
     Byte.x00; Byte.x00; Byte.x00; Byte.x00] /\
  readFloat (snd (writeFloat out_of_range (NewBuffer []) float_3_5)) =
    (float_3_0, None, NewBuffer []) /\
  float_3_0 <> float_3_5.
Proof.
  split; [reflexivity | split; [reflexivity | split]].
  - vm_compute. reflexivity.
  - discriminate.
Qed.

(** * Further properties of the serializer *)

(** ** More on conversions and fields *)

Lemma unsigned_signed_wrap (w u : Z) :
  0 < w -> in_unsigned w u -> unsigned_wrap w (signed_wrap w u) = u.
Proof.
  unfold in_unsigned, unsigned_wrap, signed_wrap. intros Hw Hu.
  assert (H0 : 0 < 2 ^ w) by (apply Z.pow_pos_nonneg; lia).
  rewrite (Z.mod_small u) by exact Hu.
  destruct (Z.ltb_spec u (2 ^ (w - 1))).
  - apply Z.mod_small, Hu.
  - replace (u - 2 ^ w) with (u + (-1) * 2 ^ w) by lia.
    rewrite Z.mod_add by lia. apply Z.mod_small, Hu.
Qed.

(** A field read with [idx] only depends on its first bytes. *)
Lemma Uint16_idx (b : list byte) :
  order.Uint16 b = order.Uint16 [idx b 0; idx b 1].
Proof. reflexivity. Qed.

Lemma Uint32_idx (b : list byte) :
  order.Uint32 b = order.Uint32 [idx b 0; idx b 1; idx b 2; idx b 3].
Proof. reflexivity. Qed.

Lemma Uint64_idx (b : list byte) :
  order.Uint64 b =
  order.Uint64 [idx b 0; idx b 1; idx b 2; idx b 3;
                idx b 4; idx b 5; idx b 6; idx b 7].
Proof. reflexivity. Qed.

Lemma Uint64_range (b : list byte) : in_unsigned 64 (order.Uint64 b).
Proof.
  rewrite Uint64_idx, Uint64_value. unfold in_unsigned.
  pose proof (byte.unsigned_range (idx b 0)).
  pose proof (byte.unsigned_range (idx b 1)).
  pose proof (byte.unsigned_range (idx b 2)).
  pose proof (byte.unsigned_range (idx b 3)).
  pose proof (byte.unsigned_range (idx b 4)).
  pose proof (byte.unsigned_range (idx b 5)).
  pose proof (byte.unsigned_range (idx b 6)).
  pose proof (byte.unsigned_range (idx b 7)).
  lia.
Qed.

(** A two-byte or four-byte field whose first byte has its top bit set is
    a negative number. *)
Lemma int16_top_bit (b0 b1 : byte) :
  128 <= byte.unsigned b0 -> int16 (order.Uint16 [b0; b1]) < 0.
Proof.
  intros Htop. rewrite Uint16_value.
  pose proof (byte.unsigned_range b0). pose proof (byte.unsigned_range b1).
  unfold int16, signed_wrap. rewrite Z.mod_small by lia.
  destruct (Z.ltb_spec (byte.unsigned b0 * 2 ^ 8 + byte.unsigned b1)
              (2 ^ (16 - 1))); simpl in *; lia.
Qed.

Lemma int32_top_bit (b0 b1 b2 b3 : byte) :
  128 <= byte.unsigned b0 -> int32 (order.Uint32 [b0; b1; b2; b3]) < 0.
Proof.
  intros Htop. rewrite Uint32_value.
  pose proof (byte.unsigned_range b0). pose proof (byte.unsigned_range b1).
  pose proof (byte.unsigned_range b2). pose proof (byte.unsigned_range b3).
  unfold int32, signed_wrap. rewrite Z.mod_small by lia.
  match goal with
  | |- context [?u <? ?k] => destruct (Z.ltb_spec u k)
  end; simpl in *; lia.
Qed.

(** The prefix of a length that fits the field, for a number rather than
    for a list. *)
Lemma length_field_value (n : Z) :
  0 <= n <= MaxInt32 -> int32 (order.Uint32 (order.PutUint32 n)) = n.
Proof.
  unfold MaxInt32. intros Hn.
  rewrite Uint32_PutUint32. rewrite Z.mod_small by (simpl; lia).
  apply signed_wrap_small; [lia | unfold in_signed; simpl; lia].
Qed.

Lemma skipn_repeat {A : Type} (a : A) (k n : nat) :
  skipn k (repeat a n) = repeat a (n - k).
Proof.
  revert n. induction k as [|k IH]; intros n.
  - rewrite Nat.sub_0_r. reflexivity.
  - destruct n as [|n]; [reflexivity | apply IH].
Qed.

(** ** Byte strings *)

(** X1: what [writeByteString] writes for a byte string of at most
    [MaxInt32] bytes is read back by [readByteArray] as the same bytes,
    each as an [int8], and by [readString] as the same bytes; both leave
    what follows in the buffer. *)
Theorem byteString_roundtrip (d l rest : list byte) :
  len d <= MaxInt32 ->
  fst (writeByteString (NewBuffer l) d) = None /\
  unread (snd (writeByteString (NewBuffer l) d)) = l ++ string_bytes d /\
  readByteArray (NewBuffer (string_bytes d ++ rest)) =
    Returns (map int8_of_byte d, None, NewBuffer rest) /\
  readString (NewBuffer (string_bytes d ++ rest)) =
    Returns (d, None, NewBuffer rest).
Proof.
  intros Hd. rewrite writeByteString_Buffer. cbn [fst snd unread].
  split; [reflexivity | split; [reflexivity | split]].
  - unfold string_bytes. rewrite prefix_fits, <- app_assoc by exact Hd.
    apply readByteArray_Buffer; [reflexivity | apply prefix_value, Hd].
  - apply readString_string_bytes, Hd.
Qed.

Lemma byteString_roundtrip_witness :
  readByteArray
    (snd (writeByteString (NewBuffer []) [Byte.x80; Byte.x7f; Byte.x00])) =
  Returns ([-128; 127; 0], None, NewBuffer []).
Proof.
  assert (Hd : len [Byte.x80; Byte.x7f; Byte.x00] <= MaxInt32)
    by (vm_compute; discriminate).
  destruct (byteString_roundtrip [Byte.x80; Byte.x7f; Byte.x00] [] [] Hd)
    as (_ & _ & Hr & _).
  exact Hr.
Defined.

(** ** Sizes on the wire *)

(** X2: on a buffer no writer fails, and each grows the buffer by the size
    of its field whatever the value: one byte for the version, a boolean
    and a byte, two for a short, four for an int, eight for a long and a
    float, and four more than the string for a string or a byte string. *)
Theorem writers_wire_size (l s : list byte) (d : Z) (b : bool)
  (out_of_range : float64 -> Z) (f : float64) :
  writeProtoVersion (NewBuffer l) = (None, NewBuffer (l ++ [Byte.x01])) /\
  (fst (writeBoolean (NewBuffer l) b) = None /\
   len (unread (snd (writeBoolean (NewBuffer l) b))) = len l + 1) /\
  (fst (writeByte (NewBuffer l) d) = None /\
   len (unread (snd (writeByte (NewBuffer l) d))) = len l + 1) /\
  (fst (writeShort (NewBuffer l) d) = None /\
   len (unread (snd (writeShort (NewBuffer l) d))) = len l + 2) /\
  (fst (writeInt (NewBuffer l) d) = None /\
   len (unread (snd (writeInt (NewBuffer l) d))) = len l + 4) /\
  (fst (writeLong (NewBuffer l) d) = None /\
   len (unread (snd (writeLong (NewBuffer l) d))) = len l + 8) /\
  (fst (writeFloat out_of_range (NewBuffer l) f) = None /\
   len (unread (snd (writeFloat out_of_range (NewBuffer l) f))) = len l + 8)
  /\
  (fst (writeString (NewBuffer l) s) = None /\
   len (unread (snd (writeString (NewBuffer l) s))) = len l + 4 + len s) /\
  (fst (writeByteString (NewBuffer l) s) = None /\
   len (unread (snd (writeByteString (NewBuffer l) s))) = len l + 4 + len s).
Proof.
  rewrite writeString_Buffer, writeByteString_Buffer.
  unfold string_bytes.
  repeat match goal with |- _ /\ _ => split end;
    try reflexivity;
    try (destruct b); cbn [snd unread writeBoolean writeByte writeShort
                           writeInt writeLong writeFloat Write Buffer_Writer];
    rewrite ?len_app; try reflexivity.
  all: unfold len; cbn [length order.PutUint32]; lia.
Qed.

(** ** Values written one after the other *)

Lemma writeBoolean_Buffer (l : list byte) (b : bool) :
  writeBoolean (NewBuffer l) b = (None, NewBuffer (l ++ [bool_byte b])).
Proof. destruct b; reflexivity. Qed.

Lemma readBoolean_bool_byte (b : bool) (rest : list byte) :
  readBoolean (NewBuffer (bool_byte b :: rest)) = (b, None, NewBuffer rest).
Proof.
  unfold readBoolean. rewrite readByte_Buffer. destruct b; reflexivity.
Qed.

(** X3: an int, a string, a long, a boolean, a short and a byte written in
    this order into one buffer are read back, in the same order and with
    the matching readers, as the values written; each reader stops where
    the next value starts, and the last one empties the buffer. *)
Theorem sequence_roundtrip (i n h c : Z) (s : list byte) (b : bool) :
  in_signed 32 i -> len s <= MaxInt32 -> in_signed 64 n ->
  in_signed 16 h -> in_signed 8 c ->
  let w1 := snd (writeInt (NewBuffer []) i) in
  let w2 := snd (writeString w1 s) in
  let w3 := snd (writeLong w2 n) in
  let w4 := snd (writeBoolean w3 b) in
  let w5 := snd (writeShort w4 h) in
  let w6 := snd (writeByte w5 c) in
  exists r1 r2 r3 r4 r5 : Buffer,
    readInt w6 = (i, None, r1) /\
    readString r1 = Returns (s, None, r2) /\
    readLong r2 = (n, None, r3) /\
    readBoolean r3 = (b, None, r4) /\
    readShort r4 = (h, None, r5) /\
    readByte r5 = (c, None, NewBuffer []).
Proof.
  intros Hi Hs Hn Hh Hc w1 w2 w3 w4 w5 w6.
  subst w1 w2 w3 w4 w5 w6.
  rewrite writeInt_Buffer. cbn [snd].
  rewrite writeString_Buffer. cbn [snd].
  rewrite writeLong_Buffer. cbn [snd].
  rewrite writeBoolean_Buffer. cbn [snd].
  rewrite writeShort_Buffer. cbn [snd].
  rewrite writeByte_Buffer. cbn [snd].
  rewrite <- !app_assoc. cbn [app].
  do 5 eexists.
  split.
  { rewrite readInt_Buffer, int32_field by auto using PutUint32_length.
    reflexivity. }
  split; [apply readString_string_bytes, Hs |].
  split.
  { rewrite readLong_Buffer, int64_field by auto using PutUint64_length.
    reflexivity. }
  split; [apply readBoolean_bool_byte |].
  split.
  { rewrite readShort_Buffer, int16_field by auto using PutUint16_length.
    reflexivity. }
  rewrite readByte_Buffer, int8_byte by exact Hc. reflexivity.
Qed.

(** The sequence 42, "ok", -1, true, -2, 7. *)
Lemma sequence_roundtrip_witness :
  exists r1 r2 r3 r4 r5 : Buffer,
    readInt
      (snd (writeByte
         (snd (writeShort
            (snd (writeBoolean
               (snd (writeLong
                  (snd (writeString
                     (snd (writeInt (NewBuffer []) 42))
                     (bytes_of_string "ok")))
                  (-1)))
               true))
            (-2)))
         7)) = (42, None, r1) /\
    readString r1 = Returns (bytes_of_string "ok", None, r2) /\
    readLong r2 = (-1, None, r3) /\
    readBoolean r3 = (true, None, r4) /\
    readShort r4 = (-2, None, r5) /\
    readByte r5 = (7, None, NewBuffer []).
Proof.
  assert (Hi : in_signed 32 42) by (unfold in_signed; simpl; lia).
  assert (Hs : len (bytes_of_string "ok") <= MaxInt32)
    by (vm_compute; discriminate).
  assert (Hn : in_signed 64 (-1)) by (unfold in_signed; simpl; lia).
  assert (Hh : in_signed 16 (-2)) by (unfold in_signed; simpl; lia).
  assert (Hc : in_signed 8 7) by (unfold in_signed; simpl; lia).
  exact (sequence_roundtrip 42 (-1) (-2) 7 (bytes_of_string "ok") true
           Hi Hs Hn Hh Hc).
Defined.

(** ** Reads at the end of a buffer *)

Lemma Buffer_Read_tail (p : list byte) (n : nat) :
  p <> [] -> (length p < n)%nat ->
  Read (NewBuffer p) (repeat Byte.x00 n) =
  (p ++ repeat Byte.x00 (n - length p), len p, None, NewBuffer []).
Proof.
  intros Hp Hlt. destruct p as [|c l]; [congruence |].
  rewrite Buffer_Read_short by (rewrite repeat_length; exact Hlt).
  rewrite skipn_repeat. reflexivity.
Qed.

(** X4: a buffer that is not empty but ends inside a field of two, four or
    eight bytes gives no error: [readShort], [readInt], [readLong] and
    [readFloat] return the value of the bytes that are there followed by
    zero bytes, and the buffer is empty afterwards. *)
Theorem reads_pad_at_end_of_buffer (p : list byte) :
  p <> [] ->
  ((length p < 2)%nat ->
   readShort (NewBuffer p) =
   (int16 (order.Uint16 (p ++ repeat Byte.x00 (2 - length p))), None,
    NewBuffer [])) /\
  ((length p < 4)%nat ->
   readInt (NewBuffer p) =
   (int32 (order.Uint32 (p ++ repeat Byte.x00 (4 - length p))), None,
    NewBuffer [])) /\
  ((length p < 8)%nat ->
   readLong (NewBuffer p) =
   (int64 (order.Uint64 (p ++ repeat Byte.x00 (8 - length p))), None,
    NewBuffer []) /\
   readFloat (NewBuffer p) =
   (of_uint64 (order.Uint64 (p ++ repeat Byte.x00 (8 - length p))), None,
    NewBuffer [])).
Proof.
  intros Hp. split; [| split]; intros Hlt.
  - unfold readShort. rewrite (Buffer_Read_tail p 2 Hp Hlt). reflexivity.
  - unfold readInt. rewrite (Buffer_Read_tail p 4 Hp Hlt). reflexivity.
  - unfold readLong, readFloat. rewrite (Buffer_Read_tail p 8 Hp Hlt).
    split; reflexivity.
Qed.

(** Three bytes where an int is expected: 01 02 03 reads as 0x01020300. *)
Lemma reads_pad_at_end_of_buffer_witness :
  readInt (NewBuffer [Byte.x01; Byte.x02; Byte.x03]) =
  (16909056, None, NewBuffer []).
Proof.
  assert (Hp : [Byte.x01; Byte.x02; Byte.x03] <> []) by discriminate.
  assert (Hlt : (length [Byte.x01; Byte.x02; Byte.x03] < 4)%nat)
    by (cbn [length]; lia).
  destruct (reads_pad_at_end_of_buffer _ Hp) as (_ & H4 & _).
  exact (H4 Hlt).
Defined.

(** X5: a string whose payload is cut short.  When the buffer ends right
    after a prefix that announces [n > 0] bytes, [readString] returns the
    empty string and [io.EOF]; when some but not all of the [n] bytes are
    there, it returns no error and a string of [n] bytes, the bytes that
    are there followed by zero bytes. *)
Theorem readString_truncated (n : Z) (p : list byte) :
  0 < n <= MaxInt32 -> len p < n ->
  (p = [] ->
   readString (NewBuffer (order.PutUint32 n)) =
   Returns ([], Some EOF, NewBuffer [])) /\
  (p <> [] ->
   readString (NewBuffer (order.PutUint32 n ++ p)) =
   Returns (p ++ repeat Byte.x00 (Z.to_nat n - length p), None,
            NewBuffer [])).
Proof.
  intros Hn Hp.
  assert (Hv : int32 (order.Uint32 (order.PutUint32 n)) = n)
    by (apply length_field_value; lia).
  assert (Hmake : make Byte.x00 n = Returns (repeat Byte.x00 (Z.to_nat n))).
  { unfold make. destruct (Z.ltb_spec n 0); [lia | reflexivity]. }
  split; intros Hcase.
  - unfold readString.
    rewrite <- (app_nil_r (order.PutUint32 n)).
    rewrite readInt_Buffer by reflexivity. rewrite Hv, Hmake.
    rewrite Buffer_Read_empty; [reflexivity |].
    destruct (Z.to_nat n) eqn:E; [lia | discriminate].
  - unfold readString.
    rewrite readInt_Buffer by reflexivity. rewrite Hv, Hmake.
    rewrite Buffer_Read_tail; [reflexivity | exact Hcase |].
    unfold len in Hp. lia.
Qed.

(** A prefix of 3 followed by the one byte 41. *)
Lemma readString_truncated_witness :
  readString (NewBuffer [Byte.x00; Byte.x00; Byte.x00; Byte.x03; Byte.x41]) =
  Returns ([Byte.x41; Byte.x00; Byte.x00], None, NewBuffer []).
Proof.
  assert (Hn : 0 < 3 <= MaxInt32) by (unfold MaxInt32; lia).
  assert (Hp : len [Byte.x41] < 3) by (vm_compute; reflexivity).
  destruct (readString_truncated 3 [Byte.x41] Hn Hp) as [_ Hsome].
  apply Hsome. discriminate.
Defined.

Lemma readByte_empty : readByte (NewBuffer []) = (0, Some EOF, NewBuffer []).
Proof. reflexivity. Qed.

Lemma readByteArray_loop_short (bs : list byte) :
  forall (m i : nat) (arr : list Z),
    (length bs < m)%nat ->
    readByteArray_loop m i arr (NewBuffer bs) =
    ([], Some EOF, NewBuffer []).
Proof.
  induction bs as [|b bs IH]; intros m i arr Hlt;
    (destruct m as [|m]; [cbn [length] in Hlt; lia |]);
    cbn [readByteArray_loop].
  - rewrite readByte_empty. reflexivity.
  - rewrite readByte_Buffer. apply IH. cbn [length] in Hlt. lia.
Qed.

(** X6: a byte array cut short.  When fewer bytes follow the count than it
    announces, [readByteArray] reads the bytes that are there, meets the
    end of the buffer, and returns nil and [io.EOF]: the bytes read so far
    are not returned. *)
Theorem readByteArray_truncated (n : Z) (bs : list byte) :
  n <= MaxInt32 -> len bs < n ->
  readByteArray (NewBuffer (order.PutUint32 n ++ bs)) =
  Returns ([], Some EOF, NewBuffer []).
Proof.
  intros Hn Hbs. pose proof (len_nonneg bs) as H0.
  unfold readByteArray.
  rewrite <- (app_nil_r bs), readInt_Buffer by reflexivity.
  rewrite length_field_value by lia.
  unfold make. destruct (Z.ltb_spec n 0); [lia |].
  rewrite repeat_length, app_nil_r.
  rewrite readByteArray_loop_short; [reflexivity |].
  unfold len in Hbs. lia.
Qed.

(** A count of 3 followed by two bytes. *)
Lemma readByteArray_truncated_witness :
  readByteArray
    (NewBuffer [Byte.x00; Byte.x00; Byte.x00; Byte.x03; Byte.x01; Byte.x02]) =
  Returns ([], Some EOF, NewBuffer []).
Proof.
  assert (Hn : 3 <= MaxInt32) by (unfold MaxInt32; lia).
  assert (Hbs : len [Byte.x01; Byte.x02] < 3) by (vm_compute; reflexivity).
  exact (readByteArray_truncated 3 [Byte.x01; Byte.x02] Hn Hbs).
Defined.

(** ** Arrays built from the writers *)

Lemma writeStrings_Buffer (ss : list (list byte)) :
  forall l : list byte,
    writeStrings (NewBuffer l) ss =
    NewBuffer (l ++ concat (map string_bytes ss)).
Proof.
  unfold writeStrings.
  induction ss as [|s ss IH]; intros l; cbn [fold_left map concat].
  - rewrite app_nil_r. reflexivity.
  - rewrite writeString_Buffer. cbn [snd]. rewrite IH, <- app_assoc.
    reflexivity.
Qed.

Lemma writeBytes_Buffer (ds : list Z) :
  forall l : list byte,
    writeBytes (NewBuffer l) ds =
    NewBuffer (l ++ map (fun d => byte.of_Z (uint8 d)) ds).
Proof.
  unfold writeBytes.
  induction ds as [|d ds IH]; intros l; cbn [fold_left map].
  - rewrite app_nil_r. reflexivity.
  - rewrite writeByte_Buffer. cbn [snd]. rewrite IH, <- app_assoc.
    reflexivity.
Qed.

Lemma readStringArray_Buffer (p rest : list byte) (ss : list (list byte)) :
  length p = 2%nat -> int16 (order.Uint16 p) = len ss ->
  Forall (fun s => len s <= MaxInt32) ss ->
  readStringArray (NewBuffer (p ++ concat (map string_bytes ss) ++ rest)) =
  Returns (ss, None, NewBuffer rest).
Proof.
  intros Hp Hn Hss. unfold readStringArray.
  rewrite readShort_Buffer by exact Hp. rewrite Hn.
  unfold make, len. destruct (Z.ltb_spec (Z.of_nat (length ss)) 0); [lia |].
  rewrite Nat2Z.id, repeat_length.
  apply (readStringArray_loop_Buffer rest ss Hss []).
Qed.

(** X7: a count written with [writeShort] and then the strings written
    one by one with [writeString] form what [readStringArray] reads: for
    at most [MaxInt16] strings of at most [MaxInt32] bytes each it returns
    the strings written, in order, and empties the buffer. *)
Theorem stringArray_roundtrip (ss : list (list byte)) :
  len ss <= MaxInt16 ->
  Forall (fun s => len s <= MaxInt32) ss ->
  readStringArray
    (writeStrings (snd (writeShort (NewBuffer []) (len ss))) ss) =
  Returns (ss, None, NewBuffer []).
Proof.
  intros Hn Hss. pose proof (len_nonneg ss) as H0.
  rewrite writeShort_Buffer. cbn [snd app].
  rewrite writeStrings_Buffer.
  rewrite <- (app_nil_r (concat (map string_bytes ss))).
  apply readStringArray_Buffer; [reflexivity | | exact Hss].
  unfold uint16. rewrite unsigned_wrap_small
    by (unfold in_unsigned, MaxInt16 in *; simpl; lia).
  apply count_value. lia.
Qed.

Lemma stringArray_roundtrip_witness :
  readStringArray
    (writeStrings (snd (writeShort (NewBuffer []) 3))
       [bytes_of_string "a"; []; bytes_of_string "bc"]) =
  Returns ([bytes_of_string "a"; []; bytes_of_string "bc"], None,
           NewBuffer []).
Proof.
  assert (Hn : len [bytes_of_string "a"; []; bytes_of_string "bc"]
               <= MaxInt16) by (vm_compute; discriminate).
  assert (Hss : Forall (fun s : list byte => len s <= MaxInt32)
                  [bytes_of_string "a"; []; bytes_of_string "bc"])
    by (repeat constructor; vm_compute; discriminate).
  exact (stringArray_roundtrip _ Hn Hss).
Defined.

Lemma int8_bytes (ds : list Z) :
  Forall (in_signed 8) ds ->
  map int8_of_byte (map (fun d => byte.of_Z (uint8 d)) ds) = ds.
Proof.
  induction 1 as [|d ds Hd Hds IH]; cbn [map]; [reflexivity |].
  unfold int8_of_byte at 1. rewrite int8_byte by exact Hd.
  rewrite IH. reflexivity.
Qed.

(** X8: a count written with [writeInt] and then the elements written one
    by one with [writeByte] form what [readByteArray] reads: for at most
    [MaxInt32] elements, each an [int8], it returns the elements written,
    in order, and empties the buffer. *)
Theorem byteArray_roundtrip (ds : list Z) :
  len ds <= MaxInt32 ->
  Forall (in_signed 8) ds ->
  readByteArray (writeBytes (snd (writeInt (NewBuffer []) (len ds))) ds) =
  Returns (ds, None, NewBuffer []).
Proof.
  intros Hn Hds. pose proof (len_nonneg ds) as H0.
  rewrite writeInt_Buffer. cbn [snd app].
  rewrite writeBytes_Buffer.
  rewrite <- (app_nil_r (map _ ds)).
  rewrite readByteArray_Buffer.
  - rewrite int8_bytes by exact Hds. reflexivity.
  - reflexivity.
  - unfold uint32. rewrite unsigned_wrap_small
      by (unfold in_unsigned, MaxInt32 in *; simpl; lia).
    rewrite length_field_value by lia.
    unfold len. rewrite length_map. reflexivity.
Qed.

Lemma byteArray_roundtrip_witness :
  readByteArray (writeBytes (snd (writeInt (NewBuffer []) 3)) [-128; 0; 127])
  = Returns ([-128; 0; 127], None, NewBuffer []).
Proof.
  assert (Hn : len [-128; 0; 127] <= MaxInt32) by (vm_compute; discriminate).
  assert (Hds : Forall (in_signed 8) [-128; 0; 127])
    by (repeat constructor; unfold in_signed; simpl; lia).
  exact (byteArray_roundtrip [-128; 0; 127] Hn Hds).
Defined.

(** ** The string encoding delimits itself *)

(** X9: what [writeString] writes delimits itself.  When the bytes that
    [writeString] puts into an empty buffer for two strings of at most
    [MaxInt32] bytes, each followed by further bytes, are the same
    stream, the two strings are the same and so are the bytes that
    follow: nothing [writeString] writes is the start of what it writes
    for another string. *)
Theorem writeString_self_delimiting (s1 s2 rest1 rest2 : list byte) :
  len s1 <= MaxInt32 -> len s2 <= MaxInt32 ->
  unread (snd (writeString (NewBuffer []) s1)) ++ rest1 =
  unread (snd (writeString (NewBuffer []) s2)) ++ rest2 ->
  s1 = s2 /\ rest1 = rest2.
Proof.
  intros H1 H2. rewrite !writeString_Buffer. cbn [snd unread app].
  intros Heq.
  pose proof (readString_string_bytes s1 rest1 H1) as R1.
  pose proof (readString_string_bytes s2 rest2 H2) as R2.
  rewrite Heq, R2 in R1. injection R1 as -> ->. split; reflexivity.
Qed.

(** "ok" followed by the byte 2a, twice. *)
Lemma writeString_self_delimiting_witness :
  unread (snd (writeString (NewBuffer []) (bytes_of_string "ok"))) ++
    [Byte.x2a] =
  [Byte.x00; Byte.x00; Byte.x00; Byte.x02; Byte.x6f; Byte.x6b; Byte.x2a] /\
  bytes_of_string "ok" = [Byte.x6f; Byte.x6b] /\
  [Byte.x2a] = [Byte.x2a].
Proof.
  assert (Hs : len (bytes_of_string "ok") <= MaxInt32)
    by (vm_compute; discriminate).
  assert (Hk : len [Byte.x6f; Byte.x6b] <= MaxInt32)
    by (vm_compute; discriminate).
  split; [reflexivity |].
  exact (writeString_self_delimiting
           (bytes_of_string "ok") [Byte.x6f; Byte.x6b]
           [Byte.x2a] [Byte.x2a] Hs Hk eq_refl).
Defined.

(** ** Floats as integers *)

Lemma trunc_nonneg (m : positive) (e : Z) : 0 <= trunc m e.
Proof.
  unfold trunc. destruct (Z.leb_spec 0 e).
  - apply Z.shiftl_nonneg. lia.
  - apply Z.shiftr_nonneg. lia.
Qed.

(** X10: for a positive finite [float64] whose integer part is below
    2^63, [writeFloat] does on every writer what [writeLong] does with the
    integer part: the fraction never reaches the wire. *)
Theorem writeFloat_as_writeLong {W : Type} `{Writer W}
  (out_of_range : float64 -> Z) (w : W) (m : positive) (e : Z) :
  trunc m e < 2 ^ 63 ->
  writeFloat out_of_range w (S754_finite false m e) =
  writeLong w (trunc m e).
Proof.
  intros Hlt. pose proof (trunc_nonneg m e) as H0.
  unfold writeFloat, writeLong, to_uint64.
  destruct (Z.ltb_spec (trunc m e) (2 ^ 64)); [| simpl in *; lia].
  unfold uint64, unsigned_wrap. rewrite Z.mod_small by lia. reflexivity.
Qed.

(** 3.5 is written as the long 3. *)
Lemma writeFloat_as_writeLong_witness :
  writeFloat (fun _ => 0) (NewBuffer []) float_3_5 =
  writeLong (NewBuffer []) 3.
Proof.
  assert (Hlt : trunc 7881299347898368 (-51) < 2 ^ 63)
    by (vm_compute; reflexivity).
  exact (writeFloat_as_writeLong (fun _ => 0) (NewBuffer [])
           7881299347898368 (-51) Hlt).
Defined.

Lemma to_uint64_integer_part_zero (out_of_range : float64 -> Z)
  (d : float64) :
  integer_part_zero d = true -> to_uint64 out_of_range d = 0.
Proof.
  destruct d as [s | s | | [|] m e]; cbn [integer_part_zero to_uint64];
    try discriminate; try reflexivity; intros Hz.
  - rewrite Hz. reflexivity.
  - apply Z.eqb_eq in Hz. rewrite Hz. reflexivity.
Qed.

(** X11: a zero of either sign and every finite value of magnitude below
    one are written by [writeFloat] as eight zero bytes, and [readFloat]
    reads eight zero bytes as +0: the sign of a zero and every such value
    are lost. *)
Theorem writeFloat_below_one (out_of_range : float64 -> Z) (d : float64)
  (l rest : list byte) :
  integer_part_zero d = true ->
  writeFloat out_of_range (NewBuffer l) d =
    (None, NewBuffer (l ++ repeat Byte.x00 8)) /\
  readFloat (NewBuffer (repeat Byte.x00 8 ++ rest)) =
    (S754_zero false, None, NewBuffer rest).
Proof.
  intros Hz. split.
  - unfold writeFloat.
    rewrite to_uint64_integer_part_zero by exact Hz. reflexivity.
  - rewrite readFloat_Buffer by reflexivity. reflexivity.
Qed.

(** Minus zero and a quarter. *)
Lemma writeFloat_below_one_witness :
  writeFloat (fun _ => 0) (NewBuffer []) (S754_zero true) =
    (None, NewBuffer (repeat Byte.x00 8)) /\
  writeFloat (fun _ => 0) (NewBuffer [])
    (S754_finite false 4503599627370496 (-54)) =
    (None, NewBuffer (repeat Byte.x00 8)).
Proof.
  split.
  - exact (proj1 (writeFloat_below_one (fun _ => 0) (S754_zero true)
                    [] [] eq_refl)).
  - exact (proj1 (writeFloat_below_one (fun _ => 0)
                    (S754_finite false 4503599627370496 (-54))
                    [] [] eq_refl)).
Defined.

(** X12: on every reader [readFloat] consumes what [readLong] consumes and
    fails when it fails, with the same error; when [readLong] returns the
    long [v], [readFloat] returns the float nearest to [v] read as an
    unsigned 64-bit integer. *)
Theorem readFloat_as_readLong {R : Type} `{Reader R} (r r' : R) (v : Z) :
  (readLong r = (v, None, r') ->
   readFloat r = (of_uint64 (uint64 v), None, r')) /\
  (forall e : error,
      readLong r = (v, Some e, r') ->
      readFloat r = (S754_zero false, Some e, r')).
Proof.
  unfold readLong, readFloat.
  destruct (Read r (repeat Byte.x00 8)) as [[[bs k] [e0|]] r0]; split.
  - discriminate.
  - intros e Hl. injection Hl as _ <- <-. reflexivity.
  - intros Hl. injection Hl as <- <-.
    unfold uint64, int64.
    rewrite unsigned_signed_wrap; [reflexivity | lia | apply Uint64_range].
  - discriminate.
Qed.

(** The bytes ff .. ff: the long -1, the float 2^64. *)
Lemma readFloat_as_readLong_witness :
  readFloat (NewBuffer (repeat Byte.xff 8)) =
  (S754_finite false 4503599627370496 12, None, NewBuffer []).
Proof.
  exact (proj1 (readFloat_as_readLong (NewBuffer (repeat Byte.xff 8))
                  (NewBuffer []) (-1)) eq_refl).
Defined.

(** ** Prefixes with the top bit set *)

(** X13: a buffer whose first byte has its top bit set starts with a
    negative prefix, whatever follows: [readString] and [readByteArray]
    panic when at least four bytes are there, [readStringArray] when at
    least two are. *)
Theorem top_bit_prefix_panics (b0 b1 b2 b3 : byte) (rest : list byte) :
  128 <= byte.unsigned b0 ->
  readString (NewBuffer (b0 :: b1 :: b2 :: b3 :: rest)) =
    Panics makeslice_len_out_of_range /\
  readByteArray (NewBuffer (b0 :: b1 :: b2 :: b3 :: rest)) =
    Panics makeslice_len_out_of_range /\
  readStringArray (NewBuffer (b0 :: b1 :: rest)) =
    Panics makeslice_len_out_of_range.
Proof.
  intros Htop.
  pose proof (int32_top_bit b0 b1 b2 b3 Htop) as H32.
  pose proof (int16_top_bit b0 b1 Htop) as H16.
  unfold readString, readByteArray, readStringArray.
  change (b0 :: b1 :: b2 :: b3 :: rest) with ([b0; b1; b2; b3] ++ rest).
  change (b0 :: b1 :: rest) with ([b0; b1] ++ rest).
  rewrite readInt_Buffer, readShort_Buffer by reflexivity.
  rewrite !make_negative by assumption.
  repeat split.
Qed.

Lemma top_bit_prefix_panics_witness :
  readString (NewBuffer [Byte.x80; Byte.x00; Byte.x00; Byte.x00; Byte.x41]) =
  Panics makeslice_len_out_of_range.
Proof.
  assert (Htop : 128 <= byte.unsigned Byte.x80) by (vm_compute; discriminate).
  exact (proj1 (top_bit_prefix_panics Byte.x80 Byte.x00 Byte.x00 Byte.x00
                  [Byte.x41] Htop)).
Defined.

(** ** Distinct values, distinct bytes *)

(** X14: two values of a signed type that [writeByte], [writeShort],
    [writeInt] or [writeLong] writes as the same bytes are the same
    value. *)
Theorem integer_encodings_injective (a b : Z) :
  (in_signed 8 a -> in_signed 8 b ->
   snd (writeByte (NewBuffer []) a) = snd (writeByte (NewBuffer []) b) ->
   a = b) /\
  (in_signed 16 a -> in_signed 16 b ->
   snd (writeShort (NewBuffer []) a) = snd (writeShort (NewBuffer []) b) ->
   a = b) /\
  (in_signed 32 a -> in_signed 32 b ->
   snd (writeInt (NewBuffer []) a) = snd (writeInt (NewBuffer []) b) ->
   a = b) /\
  (in_signed 64 a -> in_signed 64 b ->
   snd (writeLong (NewBuffer []) a) = snd (writeLong (NewBuffer []) b) ->
   a = b).
Proof.
  rewrite !writeByte_Buffer, !writeShort_Buffer, !writeInt_Buffer,
    !writeLong_Buffer. cbn [snd app].
  repeat match goal with |- _ /\ _ => split end; intros Ha Hb Heq.
  - apply (f_equal (fun w => int8 (byte.unsigned (idx (unread w) 0)))) in Heq.
    cbn [unread idx nth] in Heq.
    rewrite !int8_byte in Heq by assumption. exact Heq.
  - apply (f_equal (fun w => int16 (order.Uint16 (unread w)))) in Heq.
    cbn [unread] in Heq.
    rewrite !int16_field in Heq by assumption. exact Heq.
  - apply (f_equal (fun w => int32 (order.Uint32 (unread w)))) in Heq.
    cbn [unread] in Heq.
    rewrite !int32_field in Heq by assumption. exact Heq.
  - apply (f_equal (fun w => int64 (order.Uint64 (unread w)))) in Heq.
    cbn [unread] in Heq.
    rewrite !int64_field in Heq by assumption. exact Heq.
Qed.

Lemma integer_encodings_injective_witness : 258 = 258.
Proof.
  assert (Ha : in_signed 32 258) by (unfold in_signed; simpl; lia).
  destruct (integer_encodings_injective 258 258) as (_ & _ & H32 & _).
  exact (H32 Ha Ha eq_refl).
Defined.

(** ** One byte at a time *)

(** X15: [readByte] and [readBoolean] ask for one byte, so a source that
    hands out one byte per [Read] changes nothing for them: behind
    [OneByteReader] they return what they return on the wrapped reader and
    leave it in the same state. *)
Theorem single_byte_reads_unchunked {R : Type} `{Reader R} (r : R) :
  readByte (MkOneByteReader r) =
    (let '(v, err, r') := readByte r in (v, err, MkOneByteReader r')) /\
  readBoolean (MkOneByteReader r) =
    (let '(v, err, r') := readBoolean r in (v, err, MkOneByteReader r')).
Proof.
  assert (Hb : readByte (MkOneByteReader r) =
               (let '(v, err, r') := readByte r in
                (v, err, MkOneByteReader r'))).
  { unfold readByte, Read at 1, OneByteReader_Reader.
    cbn [len length Z.of_nat Z.eqb firstn skipn obr_r].
    destruct (Read r [Byte.x00]) as [[[bs k] [e|]] r0];
      [reflexivity | rewrite app_nil_r; reflexivity]. }
  split; [exact Hb |].
  unfold readBoolean. rewrite Hb.
  destruct (readByte r) as [[v [e|]] r0]; reflexivity.
Qed.

(** * The requests a read operation makes *)

Lemma store_length {A : Type} (arr : list A) :
  forall (i : nat) (v : A), length (store arr i v) = length arr.
Proof.
  induction arr as [|h t IH]; intros [|i] v; cbn [store length];
    try reflexivity.
  rewrite IH. reflexivity.
Qed.

Section Probed.

Context {R : Type} `{Reader R}.

Variable f : Z -> Z.

(** One [Read] behind the probe. *)
Lemma Read_Probe (r : R) (log : list nat) (p : list byte) :
  Read (MkProbe r f log) p =
  (let '(p', n, err, r') := Read r p in
   (p', f n, err, MkProbe r' f (log ++ [length p]))).
Proof. reflexivity. Qed.

Lemma readByte_Probe (r : R) (log : list nat) :
  readByte (MkProbe r f log) =
  behind_probe1 f (log ++ [1%nat]) (readByte r).
Proof.
  unfold readByte. rewrite Read_Probe.
  destruct (Read r [Byte.x00]) as [[[bs k] [e|]] r0]; reflexivity.
Qed.

Lemma readBoolean_Probe (r : R) (log : list nat) :
  readBoolean (MkProbe r f log) =
  behind_probe1 f (log ++ [1%nat]) (readBoolean r).
Proof.
  unfold readBoolean. rewrite readByte_Probe.
  destruct (readByte r) as [[v [e|]] r0]; reflexivity.
Qed.

Lemma readShort_Probe (r : R) (log : list nat) :
  readShort (MkProbe r f log) =
  behind_probe1 f (log ++ [2%nat]) (readShort r).
Proof.
  unfold readShort. rewrite Read_Probe.
  destruct (Read r (repeat Byte.x00 2)) as [[[bs k] [e|]] r0]; reflexivity.
Qed.

Lemma readInt_Probe (r : R) (log : list nat) :
  readInt (MkProbe r f log) =
  behind_probe1 f (log ++ [4%nat]) (readInt r).
Proof.
  unfold readInt. rewrite Read_Probe.
  destruct (Read r (repeat Byte.x00 4)) as [[[bs k] [e|]] r0]; reflexivity.
Qed.

Lemma readLong_Probe (r : R) (log : list nat) :
  readLong (MkProbe r f log) =
  behind_probe1 f (log ++ [8%nat]) (readLong r).
Proof.
  unfold readLong. rewrite Read_Probe.
  destruct (Read r (repeat Byte.x00 8)) as [[[bs k] [e|]] r0]; reflexivity.
Qed.

Lemma readFloat_Probe (r : R) (log : list nat) :
  readFloat (MkProbe r f log) =
  behind_probe1 f (log ++ [8%nat]) (readFloat r).
Proof.
  unfold readFloat. rewrite Read_Probe.
  destruct (Read r (repeat Byte.x00 8)) as [[[bs k] [e|]] r0]; reflexivity.
Qed.

Lemma readString_Probe (r : R) (log : list nat) :
  readString (MkProbe r f log) =
  behind_probe f (log ++ 4%nat :: payload_request r) (readString r).
Proof.
  unfold readString, payload_request. rewrite readInt_Probe.
  destruct (readInt r) as [[n [e|]] r0]; cbn [behind_probe1];
    [reflexivity |].
  unfold make. destruct (n <? 0); [reflexivity |].
  rewrite Read_Probe, repeat_length, <- app_assoc. cbn [app].
  destruct (Read r0 (repeat Byte.x00 (Z.to_nat n))) as [[[bs k] [e|]] r1];
    reflexivity.
Qed.

(** The payload is asked for when the string is read. *)
Lemma payload_request_read (r r' : R) (v : list byte) :
  readString r = Returns (v, None, r') ->
  exists n : nat, payload_request r = [n].
Proof.
  unfold readString, payload_request.
  destruct (readInt r) as [[n [e|]] r0]; [discriminate |].
  intros _. exists (Z.to_nat n). reflexivity.
Qed.

Lemma payload_request_shape (r : R) :
  payload_request r = [] \/ exists n : nat, payload_request r = [n].
Proof.
  unfold payload_request.
  destruct (readInt r) as [[n [e|]] r0]; [left | right; eexists]; reflexivity.
Qed.

Lemma readByteArray_loop_length (m : nat) :
  forall (i : nat) (arr v : list Z) (r r' : R),
    readByteArray_loop m i arr r = (v, None, r') -> length v = length arr.
Proof.
  induction m as [|m IH]; intros i arr v r r' Hloop;
    cbn [readByteArray_loop] in Hloop.
  - injection Hloop as <- _. reflexivity.
  - destruct (readByte r) as [[val [e|]] r0]; [discriminate Hloop |].
    rewrite (IH _ _ _ _ _ Hloop). apply store_length.
Qed.

Lemma readStringArray_loop_length (m : nat) :
  forall (i : nat) (arr v : list (list byte)) (r r' : R),
    readStringArray_loop m i arr r = Returns (v, None, r') ->
    length v = length arr.
Proof.
  induction m as [|m IH]; intros i arr v r r' Hloop;
    cbn [readStringArray_loop] in Hloop.
  - injection Hloop as <- _. reflexivity.
  - destruct (readString r) as [[[val [e|]] r0]|p]; try discriminate Hloop.
    rewrite (IH _ _ _ _ _ Hloop). apply store_length.
Qed.

(** The loop of [readByteArray] asks for one byte per element it gets to,
    for all of them when it ends without error. *)
Lemma readByteArray_loop_Probe (m : nat) :
  forall (i : nat) (arr : list Z) (r : R) (log : list nat),
  exists k : nat,
    readByteArray_loop m i arr (MkProbe r f log) =
    behind_probe1 f (log ++ repeat 1%nat k) (readByteArray_loop m i arr r) /\
    (k <= m)%nat /\
    (snd (fst (readByteArray_loop m i arr r)) = None -> k = m).
Proof.
  induction m as [|m IH]; intros i arr r log; cbn [readByteArray_loop].
  - exists 0%nat. cbn [repeat behind_probe1]. rewrite app_nil_r.
    repeat split; lia.
  - rewrite readByte_Probe.
    destruct (readByte r) as [[val [e|]] r0]; cbn [behind_probe1].
    + exists 1%nat. cbn [repeat fst snd].
      split; [reflexivity | split; [lia | discriminate]].
    + destruct (IH (S i) (store arr i val) r0 (log ++ [1%nat]))
        as (k & Hk & Hle & Hall).
      exists (S k). rewrite Hk, <- app_assoc.
      split; [reflexivity | split; [lia |]].
      intros Hnone. rewrite (Hall Hnone). reflexivity.
Qed.

(** The loop of [readStringArray] asks for a prefix and a payload per
    string it reads, and perhaps for a last prefix that it cannot read. *)
Lemma readStringArray_loop_Probe (m : nat) :
  forall (i : nat) (arr : list (list byte)) (r : R) (log : list nat),
  exists (ns : list nat) (tail : list nat),
    readStringArray_loop m i arr (MkProbe r f log) =
    behind_probe f (log ++ string_requests ns ++ tail)
      (readStringArray_loop m i arr r) /\
    (tail = [] \/ tail = [4%nat]) /\
    (forall v r', readStringArray_loop m i arr r = Returns (v, None, r') ->
                  tail = [] /\ length ns = m).
Proof.
  induction m as [|m IH]; intros i arr r log; cbn [readStringArray_loop].
  - exists [], []. cbn [string_requests flat_map app behind_probe].
    rewrite app_nil_r. repeat split; auto.
  - rewrite readString_Probe.
    destruct (readString r) as [[[val [e|]] r0]|p] eqn:Hstr;
      cbn [behind_probe].
    + destruct (payload_request_shape r) as [-> | [n ->]].
      * exists [], [4%nat]. cbn [string_requests flat_map app].
        split; [reflexivity | split; [right; reflexivity | discriminate]].
      * exists [n], []. cbn [string_requests flat_map app].
        split; [reflexivity | split; [left; reflexivity | discriminate]].
    + destruct (payload_request_read _ _ _ Hstr) as [n ->].
      destruct (IH (S i) (store arr i val) r0 (log ++ [4%nat; n]))
        as (ns & tail & Hloop & Htail & Hall).
      exists (n :: ns), tail. rewrite Hloop, <- app_assoc.
      cbn [string_requests flat_map app].
      split; [reflexivity | split; [exact Htail |]].
      intros v r' Hv. destruct (Hall v r' Hv) as [-> <-].
      split; reflexivity.
    + exists [], []. split; [reflexivity | split; [left; reflexivity |]].
      discriminate.
Qed.

Lemma readByteArray_Probe (r : R) (log : list nat) :
  exists k : nat,
    readByteArray (MkProbe r f log) =
    behind_probe f (log ++ 4%nat :: repeat 1%nat k) (readByteArray r) /\
    (forall v r', readByteArray r = Returns (v, None, r') -> k = length v).
Proof.
  unfold readByteArray. rewrite readInt_Probe.
  destruct (readInt r) as [[n [e|]] r0]; cbn [behind_probe1].
  - exists 0%nat. split; [reflexivity | discriminate].
  - destruct (make 0 n) as [arr|p].
    + destruct (readByteArray_loop_Probe (length arr) 0 arr r0
                  (log ++ [4%nat])) as (k & Hk & _ & Hall).
      exists k. rewrite Hk, <- app_assoc. cbn [app].
      destruct (readByteArray_loop (length arr) 0 arr r0)
        as [[v' err'] r1] eqn:Hloop.
      split; [reflexivity |].
      intros v r' Hv. injection Hv as -> -> ->.
      rewrite (Hall eq_refl).
      symmetry. eapply readByteArray_loop_length, Hloop.
    + exists 0%nat. split; [reflexivity | discriminate].
Qed.

Lemma readStringArray_Probe (r : R) (log : list nat) :
  exists (ns : list nat) (tail : list nat),
    readStringArray (MkProbe r f log) =
    behind_probe f (log ++ 2%nat :: string_requests ns ++ tail)
      (readStringArray r) /\
    (tail = [] \/ tail = [4%nat]) /\
    (forall v r', readStringArray r = Returns (v, None, r') ->
                  tail = [] /\ length ns = length v).
Proof.
  unfold readStringArray. rewrite readShort_Probe.
  destruct (readShort r) as [[n [e|]] r0]; cbn [behind_probe1].
  - exists [], []. split; [reflexivity | split; [left; reflexivity |]].
    discriminate.
  - destruct (make [] n) as [arr|p].
    + destruct (readStringArray_loop_Probe (length arr) 0 arr r0
                  (log ++ [2%nat])) as (ns & tail & Hloop & Htail & Hall).
      exists ns, tail. rewrite Hloop, <- app_assoc. cbn [app].
      split; [reflexivity | split; [exact Htail |]].
      intros v r' Hv. destruct (Hall v r' Hv) as [-> ->].
      split; [reflexivity |].
      symmetry. eapply readStringArray_loop_length, Hv.
    + exists [], []. split; [reflexivity | split; [left; reflexivity |]].
      discriminate.
Qed.

End Probed.

(** C4, as amended.  Every read operation makes exactly one [Read] per
    fixed-width field or length-prefixed payload, of the width of the
    field or of the length announced, and never looks at the number of
    bytes the [Read] reports, so it does not loop on a short read: watched
    through a probe that notes every request and reports any number
    whatever, it returns what it returns without the probe, and the
    requests noted are one per field (first part); and when that one
    [Read] reports no error the operation returns the value of the slice,
    however few bytes are reported read (second part).  From a source that
    fills every request whole, a buffer that holds the bytes of the field,
    every read operation takes exactly the bytes its field declares and
    returns without error; what follows the field stays in the buffer
    (third part). *)
Theorem reads_one_request_per_field {R : Type} `{Reader R}
  (r : R) (f : Z -> Z) (log : list nat)
  (b1 : byte) (p2 p4 p8 s bs rest : list byte) (ss : list (list byte)) :
  length p2 = 2%nat -> length p4 = 4%nat -> length p8 = 8%nat ->
  len s <= MaxInt32 -> len bs <= MaxInt32 ->
  len ss <= MaxInt16 -> Forall (fun s => len s <= MaxInt32) ss ->
  (readByte (MkProbe r f log) =
     behind_probe1 f (log ++ [1%nat]) (readByte r) /\
   readBoolean (MkProbe r f log) =
     behind_probe1 f (log ++ [1%nat]) (readBoolean r) /\
   readShort (MkProbe r f log) =
     behind_probe1 f (log ++ [2%nat]) (readShort r) /\
   readInt (MkProbe r f log) =
     behind_probe1 f (log ++ [4%nat]) (readInt r) /\
   readLong (MkProbe r f log) =
     behind_probe1 f (log ++ [8%nat]) (readLong r) /\
   readFloat (MkProbe r f log) =
     behind_probe1 f (log ++ [8%nat]) (readFloat r) /\
   readString (MkProbe r f log) =
     behind_probe f (log ++ 4%nat :: payload_request r) (readString r) /\
   (exists k : nat,
       readByteArray (MkProbe r f log) =
       behind_probe f (log ++ 4%nat :: repeat 1%nat k) (readByteArray r) /\
       (forall v r', readByteArray r = Returns (v, None, r') ->
                     k = length v)) /\
   (exists (ns : list nat) (tail : list nat),
       readStringArray (MkProbe r f log) =
       behind_probe f (log ++ 2%nat :: string_requests ns ++ tail)
         (readStringArray r) /\
       (tail = [] \/ tail = [4%nat]) /\
       (forall v r', readStringArray r = Returns (v, None, r') ->
                     tail = [] /\ length ns = length v)))
  /\
  (forall (got : list byte) (n : Z) (r' : R),
      (Read r [Byte.x00] = (got, n, None, r') ->
       readByte r = (int8_of_byte (idx got 0), None, r')) /\
      (Read r (repeat Byte.x00 2) = (got, n, None, r') ->
       readShort r = (int16 (order.Uint16 got), None, r')) /\
      (Read r (repeat Byte.x00 4) = (got, n, None, r') ->
       readInt r = (int32 (order.Uint32 got), None, r')) /\
      (Read r (repeat Byte.x00 8) = (got, n, None, r') ->
       readLong r = (int64 (order.Uint64 got), None, r') /\
       readFloat r = (of_uint64 (order.Uint64 got), None, r')))
  /\
  (readByte (NewBuffer (b1 :: rest)) =
     (int8_of_byte b1, None, NewBuffer rest) /\
   readBoolean (NewBuffer (b1 :: rest)) =
     (negb (Byte.eqb b1 Byte.x00), None, NewBuffer rest) /\
   readShort (NewBuffer (p2 ++ rest)) =
     (int16 (order.Uint16 p2), None, NewBuffer rest) /\
   readInt (NewBuffer (p4 ++ rest)) =
     (int32 (order.Uint32 p4), None, NewBuffer rest) /\
   readLong (NewBuffer (p8 ++ rest)) =
     (int64 (order.Uint64 p8), None, NewBuffer rest) /\
   readFloat (NewBuffer (p8 ++ rest)) =
     (of_uint64 (order.Uint64 p8), None, NewBuffer rest) /\
   readString (NewBuffer (order.PutUint32 (len s) ++ s ++ rest)) =
     Returns (s, None, NewBuffer rest) /\
   readByteArray (NewBuffer (order.PutUint32 (len bs) ++ bs ++ rest)) =
     Returns (map int8_of_byte bs, None, NewBuffer rest) /\
   readStringArray
     (NewBuffer (order.PutUint16 (len ss) ++
                 concat (map string_bytes ss) ++ rest)) =
     Returns (ss, None, NewBuffer rest)).
Proof.
  intros H2 H4 H8 Hs Hbs Hn Hss.
  split; [| split].
  - split; [apply readByte_Probe |].
    split; [apply readBoolean_Probe |].
    split; [apply readShort_Probe |].
    split; [apply readInt_Probe |].
    split; [apply readLong_Probe |].
    split; [apply readFloat_Probe |].
    split; [apply readString_Probe |].
    split; [apply readByteArray_Probe | apply readStringArray_Probe].
  - intros got n r'.
    unfold readByte, readShort, readInt, readLong, readFloat.
    split; [| split; [| split]]; intros ->;
      first [reflexivity | split; reflexivity].
  - split; [apply readByte_Buffer |].
    split; [unfold readBoolean;
            rewrite readByte_Buffer, int8_byte_zero; reflexivity |].
    split; [apply readShort_Buffer, H2 |].
    split; [apply readInt_Buffer, H4 |].
    split; [apply readLong_Buffer, H8 |].
    split; [apply readFloat_Buffer, H8 |].
    split; [apply readString_Buffer;
            [reflexivity | apply prefix_value, Hs] |].
    split; [apply readByteArray_Buffer;
            [reflexivity | apply prefix_value, Hbs] |].
    apply readStringArray_Buffer; [reflexivity | | exact Hss].
    apply count_value. split; [apply len_nonneg | exact Hn].
Qed.

(** The long 01 .. 08 followed by the byte 2a, watched through a probe
    that always reports that nothing was read: one request of eight
    bytes, the value of all eight, no error.  And a long, a string and two
    arrays, each followed by the byte 2a that stays in the buffer. *)
Lemma reads_one_request_per_field_witness :
  readLong
    (MkProbe
       (NewBuffer [Byte.x01; Byte.x02; Byte.x03; Byte.x04;
                   Byte.x05; Byte.x06; Byte.x07; Byte.x08; Byte.x2a])
       (fun _ => 0) []) =
  (72623859790382856, None,
   MkProbe (NewBuffer [Byte.x2a]) (fun _ => 0) [8%nat]) /\
  readLong (NewBuffer [Byte.x00; Byte.x00; Byte.x00; Byte.x00;
                       Byte.x00; Byte.x00; Byte.x01; Byte.x00; Byte.x2a]) =
    (256, None, NewBuffer [Byte.x2a]) /\
  readString (NewBuffer [Byte.x00; Byte.x00; Byte.x00; Byte.x01;
                         Byte.x41; Byte.x2a]) =
    Returns ([Byte.x41], None, NewBuffer [Byte.x2a]) /\
  readByteArray (NewBuffer [Byte.x00; Byte.x00; Byte.x00; Byte.x02;
                            Byte.xff; Byte.x07; Byte.x2a]) =
    Returns ([-1; 7], None, NewBuffer [Byte.x2a]) /\
  readStringArray
    (NewBuffer [Byte.x00; Byte.x01;
                Byte.x00; Byte.x00; Byte.x00; Byte.x01; Byte.x41;
                Byte.x2a]) =
    Returns ([[Byte.x41]], None, NewBuffer [Byte.x2a]).
Proof.
  assert (Hs : len [Byte.x41] <= MaxInt32) by (vm_compute; discriminate).
  assert (Hbs : len [Byte.xff; Byte.x07] <= MaxInt32)
    by (vm_compute; discriminate).
  assert (Hn : len [[Byte.x41]] <= MaxInt16) by (vm_compute; discriminate).
  assert (Hss : Forall (fun s : list byte => len s <= MaxInt32) [[Byte.x41]])
    by (repeat constructor; vm_compute; discriminate).
  destruct (reads_one_request_per_field
              (NewBuffer [Byte.x01; Byte.x02; Byte.x03; Byte.x04;
                          Byte.x05; Byte.x06; Byte.x07; Byte.x08; Byte.x2a])
              (fun _ => 0) []
              Byte.x00
              [Byte.x00; Byte.x00]
              [Byte.x00; Byte.x00; Byte.x00; Byte.x00]
              [Byte.x00; Byte.x00; Byte.x00; Byte.x00;
               Byte.x00; Byte.x00; Byte.x01; Byte.x00]
              [Byte.x41] [Byte.xff; Byte.x07] [Byte.x2a] [[Byte.x41]]
              eq_refl eq_refl eq_refl Hs Hbs Hn Hss)
    as ((_ & _ & _ & _ & Hprobe & _) & _ &
        (_ & _ & _ & _ & Hl & _ & Hstr & Hba & Hsa)).
  exact (conj Hprobe (conj Hl (conj Hstr (conj Hba Hsa)))).
Defined.
